(** * The [clean_directory] example of the [os] module tutorial

    The repository is one document, [src/main.py]: a tutorial on Python's
    [os] module.  Its last section, "Example: Practical Usage", holds the only
    code the repository defines itself:

<<
    import os

    def clean_directory(directory, extensions_to_keep):
        # docstring: Remove files with extensions not in the keep list
        for root, dirs, files in os.walk(directory):
            for file in files:
                file_path = os.path.join(root, file)
                _, ext = os.path.splitext(file)
                if ext.lower() not in extensions_to_keep:
                    try:
                        os.remove(file_path)
                        print(f"Removed: {file_path}")
                    except OSError as e:
                        print(f"Error removing {file_path}: {e}")

    # Usage
    extensions = ['.txt', '.pdf', '.jpg']
    clean_directory('/path/to/clean', extensions)
>>

    This file embeds that code in Rocq.  The function is stateful (it deletes
    files and prints) and it handles an exception, so it is written in a small
    state-and-exception monad over a model of the file system; the library
    calls it makes ([os.walk], [os.path.join], [os.path.splitext],
    [os.remove]) are modelled next to it.  Two of them are parameters:
    [str.lower], whose tables are those of the interpreter, is any function
    on strings, and [print] is given by a standard output that may raise. *)

From Stdlib Require Import String Ascii List Bool Arith ZArith Lia.
Import ListNotations.
Set Warnings "-register-all".
Local Open Scope string_scope.
Local Open Scope list_scope.

(** ** Strings: [str.lower] and [os.path.splitext] *)

(** A string is the sequence of the bytes of its UTF-8 encoding: the dot and
    the slash are single bytes there and occur in no other character, so that
    splitting a name at them, and comparing two strings, give what Python
    gives on the characters.

    [str.lower] follows the Unicode tables of the interpreter; it is a
    parameter of the development (Section [Library]), and the theorems hold
    for whatever function it is.  On strings of ASCII characters it is
    [ascii_lower]; only the sample runs, whose names are ASCII, use it. *)
Definition lower_ascii (c : ascii) : ascii :=
  let n := nat_of_ascii c in
  if ((65 <=? n) && (n <=? 90))%nat then ascii_of_nat (n + 32) else c.

Fixpoint ascii_lower (s : string) : string :=
  match s with
  | EmptyString => EmptyString
  | String c r => String (lower_ascii c) (ascii_lower r)
  end.

(** [p.rfind(c)]: the index of the last occurrence of [c] in [p], or [-1].
    [i] is the index of the first character of [p]. *)
Fixpoint rfind_from (c : ascii) (p : string) (i : Z) : Z :=
  match p with
  | EmptyString => (-1)%Z
  | String a r =>
      let j := rfind_from c r (i + 1)%Z in
      if (0 <=? j)%Z then j else if Ascii.eqb a c then i else (-1)%Z
  end.

Definition rfind (c : ascii) (p : string) : Z := rfind_from c p 0%Z.

(** The loop of the library's [_splitext] that skips the leading dots of the
    last component: [true] when a character other than the dot stands at one of
    the [n] positions from [filenameIndex] on. *)
Fixpoint has_name_before_dot (p : string) (filenameIndex n : nat) : bool :=
  match n with
  | O => false
  | S n' =>
      match String.get filenameIndex p with
      | Some c =>
          if Ascii.eqb c "." then has_name_before_dot p (S filenameIndex) n'
          else true
      | None => true
      end
  end.

(** [os.path.splitext(p)] on a POSIX system: the extension starts at the last
    dot of the last component, unless only dots precede it there. *)
Definition splitext (p : string) : string * string :=
  let sepIndex := rfind "/" p in
  let dotIndex := rfind "." p in
  if (sepIndex <? dotIndex)%Z
     && has_name_before_dot p (Z.to_nat (sepIndex + 1))
          (Z.to_nat (dotIndex - (sepIndex + 1)))
  then (substring 0 (Z.to_nat dotIndex) p,
        substring (Z.to_nat dotIndex) (String.length p - Z.to_nat dotIndex) p)
  else (p, EmptyString).

(** [x in l] for a list of strings (Python compares with [==]). *)
Definition contains (l : list string) (x : string) : bool :=
  existsb (String.eqb x) l.

(** ** The file system *)

(** A path is the list of its components below the root of the modelled tree;
    [os.path.join root name], for an entry name that [os.walk] produced (one
    component, never absolute), appends the component.  The components are
    names of entries: [.] and [..] are not resolved, so a path written with
    them is not found ([lookup] below), whatever it denotes on disk. *)
Definition path : Type := list string.

Definition join (root : path) (name : string) : path := root ++ [name].

(** A tree of directories and of entries that are not directories.  The order
    of a directory's entries is the order in which the system lists them.
    Every directory of the tree can be listed, and none is reached through a
    symbolic link: [os.walk] lists each of them. *)
Inductive node : Type :=
| File (data : string)
| Dir (entries : list (string * node)).

Definition is_dir (n : node) : bool :=
  match n with Dir _ => true | File _ => false end.

Fixpoint assoc (x : string) (es : list (string * node)) : option node :=
  match es with
  | [] => None
  | (y, c) :: r => if String.eqb y x then Some c else assoc x r
  end.

Fixpoint lookup (n : node) (p : path) {struct p} : option node :=
  match p with
  | [] => Some n
  | x :: q =>
      match n with
      | Dir es => match assoc x es with Some c => lookup c q | None => None end
      | File _ => None
      end
  end.

(** The entry named [x] replaced by [f] of it; the entry named [x] dropped.
    Like [assoc], both act on the first entry of that name. *)
Fixpoint update_entry (x : string) (f : node -> node)
    (es : list (string * node)) : list (string * node) :=
  match es with
  | [] => []
  | (y, c) :: r =>
      if String.eqb y x then (y, f c) :: r else (y, c) :: update_entry x f r
  end.

Fixpoint remove_entry (x : string) (es : list (string * node))
    : list (string * node) :=
  match es with
  | [] => []
  | (y, c) :: r => if String.eqb y x then r else (y, c) :: remove_entry x r
  end.

(** The tree after the entry at [p] is unlinked from its directory. *)
Fixpoint unlink (n : node) (p : path) {struct p} : node :=
  match p, n with
  | [x], Dir es => Dir (remove_entry x es)
  | x :: q, Dir es => Dir (update_entry x (fun c => unlink c q) es)
  | _, _ => n
  end.

(** What [os.walk] collects from one directory listing: the names of the
    entries that are directories, and the names of the others. *)
Definition dir_names (es : list (string * node)) : list string :=
  map fst (filter (fun yc => is_dir (snd yc)) es).

Definition file_names (es : list (string * node)) : list string :=
  map fst (filter (fun yc => negb (is_dir (snd yc))) es).

Fixpoint height (n : node) : nat :=
  match n with
  | File _ => 0
  | Dir es => S (fold_right (fun yc h => Nat.max (height (snd yc)) h) 0 es)
  end.

(** No two entries of a directory share a name, at every level. *)
Fixpoint names_unique (ns : list string) : bool :=
  match ns with
  | [] => true
  | x :: r => negb (contains r x) && names_unique r
  end.

Fixpoint well_formed (n : node) : bool :=
  match n with
  | File _ => true
  | Dir es =>
      names_unique (map fst es) && forallb (fun yc => well_formed (snd yc)) es
  end.

(** ** Effects: the world, exceptions, output *)

(** [OSError], by the subclasses that occur: three that [os.remove] raises
    and one that [print] raises on a closed pipe.  [PermissionError] stands
    for any refusal of the system to unlink a file that is there: the code
    catches [OSError] whatever its kind. *)
Inductive OSError : Type :=
| FileNotFoundError | IsADirectoryError | PermissionError | BrokenPipeError.

(** An exception: an [OSError], or one of another class, which
    [except OSError] does not catch ([UnicodeEncodeError], say). *)
Inductive exception : Type :=
| Os_error (e : OSError)
| Other_error (class : string).

(** The two lines the function prints:
    [f"Removed: {file_path}"] and [f"Error removing {file_path}: {e}"]. *)
Inductive line : Type :=
| Removed (file_path : path)
| Error_removing (file_path : path) (e : OSError).

(** What a run does, in order: a triple produced by [os.walk], a call of
    [os.remove] with the exception it raised, if any, a printed line. *)
Inductive event : Type :=
| Walked (root : path) (dirs files : list string)
| Remove_called (p : path) (raised : option OSError)
| Printed (l : line).

Record world : Type := World { fs : node; trace : list event }.

Inductive outcome (A : Type) : Type :=
| Return (a : A)
| Raise (x : exception)
| Out_of_fuel.
Arguments Return {A} a.
Arguments Raise {A} x.
Arguments Out_of_fuel {A}.

Definition M (A : Type) : Type := world -> outcome A * world.

Definition ret {A} (a : A) : M A := fun w => (Return a, w).

Definition bind {A B} (m : M A) (k : A -> M B) : M B :=
  fun w =>
    match m w with
    | (Return a, w') => k a w'
    | (Raise x, w') => (Raise x, w')
    | (Out_of_fuel, w') => (Out_of_fuel, w')
    end.

Notation "m ;; k" := (bind m (fun _ => k))
  (at level 61, right associativity).

(** [try: body / except OSError as e: handler e]. *)
Definition try_except {A} (body : M A) (handler : OSError -> M A) : M A :=
  fun w =>
    match body w with
    | (Raise (Os_error e), w') => handler e w'
    | r => r
    end.

Definition emit (e : event) : M unit :=
  fun w => (Return tt, World (fs w) (trace w ++ [e])).

Definition raise {A} (x : exception) : M A := fun w => (Raise x, w).

(** The standard output: the exception that [print] raises for a line, if
    any, after what has happened so far. *)
Definition output : Type := list event -> line -> option exception.

(** [print(l)]. *)
Definition print (stdout : output) (l : line) : M unit :=
  fun w =>
    match stdout (trace w) l with
    | Some x => (Raise x, w)
    | None => emit (Printed l) w
    end.

(** A standard output on which no [print] raises. *)
Definition accepting : output := fun _ _ => None.

Definition accepts (stdout : output) : Prop :=
  forall tr l, stdout tr l = None.

(** [for x in xs: body x]. *)
Fixpoint for_each {A} (xs : list A) (body : A -> M unit) : M unit :=
  match xs with
  | [] => ret tt
  | x :: r => body x ;; for_each r body
  end.

Section Library.

(** [str.lower]. *)
Variable lower : string -> string.

Section Clean.

Variable stdout : output.

(** The paths the operating system refuses to unlink (permissions, a
    read-only mount, a file in use). *)
Variable refused : path -> bool.

(** The exception [os.remove(p)] raises on the tree [g], if any. *)
Definition remove_error (g : node) (p : path) : option OSError :=
  match lookup g p with
  | None => Some FileNotFoundError
  | Some (Dir _) => Some IsADirectoryError
  | Some (File _) => if refused p then Some PermissionError else None
  end.

(** [os.remove(p)]. *)
Definition os_remove (p : path) : M unit :=
  fun w =>
    let r := remove_error (fs w) p in
    (emit (Remove_called p r) ;;
     match r with
     | Some e => raise (Os_error e)
     | None => fun w' => (Return tt, World (unlink (fs w') p) (trace w'))
     end) w.

(** [for root, dirs, files in os.walk(top): body root dirs files], top-down,
    with the defaults [onerror=None] and [followlinks=False].  Each directory
    is listed when the walk reaches it, after the body has run for the
    directories before it; a path that is not a directory yields nothing.
    [fuel] bounds the depth of the descent: [Out_of_fuel] is the
    [RecursionError] of the recursive [os.walk] of Python up to 3.11 on a
    tree deeper than the interpreter allows. *)
Fixpoint for_walk (fuel : nat) (top : path)
    (body : path -> list string -> list string -> M unit) : M unit :=
  match fuel with
  | O => fun w => (Out_of_fuel, w)
  | S k =>
      fun w =>
        match lookup (fs w) top with
        | Some (Dir es) =>
            let dirs := dir_names es in
            let files := file_names es in
            (emit (Walked top dirs files) ;;
             body top dirs files ;;
             for_each dirs (fun dirname => for_walk k (join top dirname) body)) w
        | _ => (Return tt, w)
        end
  end.

(** The body of the inner loop, for one [file] of the directory [root]. *)
Definition clean_file (extensions_to_keep : list string) (root : path)
    (file : string) : M unit :=
  let file_path := join root file in
  let ext := snd (splitext file) in
  if negb (contains extensions_to_keep (lower ext)) then
    try_except
      (os_remove file_path ;; print stdout (Removed file_path))
      (fun e => print stdout (Error_removing file_path e))
  else ret tt.

Definition clean_directory_fuel (fuel : nat) (directory : path)
    (extensions_to_keep : list string) : M unit :=
  for_walk fuel directory
    (fun root dirs files =>
       for_each files (clean_file extensions_to_keep root)).

(** The walk descends at most as deep as the tree is high: with this fuel
    it is the iterative [os.walk] of Python 3.12, which has no limit of
    depth. *)
Definition clean_directory (directory : path)
    (extensions_to_keep : list string) : M unit :=
  fun w => clean_directory_fuel (S (height (fs w))) directory
             extensions_to_keep w.

(** The usage lines of the example. *)
Definition extensions : list string := [".txt"; ".pdf"; ".jpg"].

Definition usage : M unit :=
  clean_directory ["path"; "to"; "clean"] extensions.

End Clean.


(** ** What a run amounts to

    The functions below describe a run of [clean_directory] by recursion on
    the tree it starts from; [clean_directory_run] proves that the code, which
    lists every directory again when the walk reaches it, does just that. *)

(** The tree [g] with the node at [p] replaced by [n]. *)
Fixpoint plug (g : node) (p : path) (n : node) {struct p} : node :=
  match p with
  | [] => n
  | x :: q =>
      match g with
      | Dir es => Dir (update_entry x (fun c => plug c q n) es)
      | File _ => g
      end
  end.

(** The triples [os.walk] yields on a tree that does not change. *)
Fixpoint walk (root : path) (n : node)
    : list (path * list string * list string) :=
  match n with
  | File _ => []
  | Dir es =>
      (root, dir_names es, file_names es)
        :: flat_map (fun yc => walk (join root (fst yc)) (snd yc)) es
  end.


(** The calls of [os.remove] in a trace, each with the exception it raised,
    and the lines printed. *)
Fixpoint remove_calls (tr : list event) : list (path * option OSError) :=
  match tr with
  | [] => []
  | Remove_called p e :: r => (p, e) :: remove_calls r
  | _ :: r => remove_calls r
  end.

Fixpoint printed (tr : list event) : list line :=
  match tr with
  | [] => []
  | Printed l :: r => l :: printed r
  | _ :: r => printed r
  end.

(** The triples of [os.walk] in a trace. *)
Fixpoint walked (tr : list event) : list (path * list string * list string) :=
  match tr with
  | [] => []
  | Walked root dirs files :: r => (root, dirs, files) :: walked r
  | _ :: r => walked r
  end.


Fixpoint is_prefix (p q : path) : bool :=
  match p, q with
  | [], _ => true
  | x :: p', y :: q' => String.eqb x y && is_prefix p' q'
  | _ :: _, [] => false
  end.

Section Summary.

Variable refused : path -> bool.
Variable extensions_to_keep : list string.

(** The test of the [if]: the lowercased extension is not in the list. *)
Definition doomed (file : string) : bool :=
  negb (contains extensions_to_keep (lower (snd (splitext file)))).

Definition survives (root : path) (yc : string * node) : bool :=
  is_dir (snd yc) || negb (doomed (fst yc)) || refused (join root (fst yc)).

(** What [os.remove] answers for a file that is there. *)
Definition answer (p : path) : path * option OSError :=
  (p, if refused p then Some PermissionError else None).

(** The paths of a triple on which [os.remove] is called, in order. *)
Definition doomed_paths (t : path * list string * list string) : list path :=
  map (join (fst (fst t))) (filter doomed (snd t)).

Definition file_events (root : path) (file : string) : list event :=
  if doomed file then
    if refused (join root file) then
      [Remove_called (join root file) (Some PermissionError);
       Printed (Error_removing (join root file) PermissionError)]
    else
      [Remove_called (join root file) None; Printed (Removed (join root file))]
  else [].

Fixpoint clean_node (root : path) (n : node) : node :=
  match n with
  | File d => File d
  | Dir es =>
      Dir (flat_map
             (fun yc =>
                if survives root yc
                then [(fst yc, clean_node (join root (fst yc)) (snd yc))]
                else [])
             es)
  end.

Fixpoint clean_events (root : path) (n : node) : list event :=
  match n with
  | File _ => []
  | Dir es =>
      Walked root (dir_names es) (file_names es)
        :: flat_map (file_events root) (file_names es)
        ++ flat_map (fun yc => clean_events (join root (fst yc)) (snd yc)) es
  end.

End Summary.

(** A run from a file system [g], with nothing traced yet. *)
Definition run_on (stdout : output) (refused : path -> bool) (directory : path)
    (extensions_to_keep : list string) (g : node) : outcome unit * world :=
  clean_directory stdout refused directory extensions_to_keep (World g []).

(** The run in which every [print] succeeds. *)
Definition run (refused : path -> bool) (directory : path)
    (extensions_to_keep : list string) (g : node) : outcome unit * world :=
  run_on accepting refused directory extensions_to_keep g.

(** What [clean_directory_run] states at a given fuel: a walk that starts
    at a node of height below the fuel returns, with the tree and the trace
    of the summary. *)
Definition walk_ok (refused : path -> bool) (keep : list string) (k : nat)
    : Prop :=
  forall n top g tr,
    well_formed n = true ->
    lookup g top = Some n ->
    height n < k ->
    clean_directory_fuel accepting refused k top keep (World g tr) =
    (Return tt,
     World (plug g top (clean_node refused keep top n))
           (tr ++ clean_events refused keep top n)).

(** An extension as the example writes them: a dot first, and lowercase
    ([e.lower() == e]). *)
Definition is_extension (e : string) : bool :=
  match e with
  | String c _ => Ascii.eqb c "." && String.eqb (lower e) e
  | EmptyString => false
  end.

(** ** Sample file systems *)

Definition never : path -> bool := fun _ => false.

Definition sample_fs : node :=
  Dir [("path", Dir [("to", Dir [("clean",
          Dir [("a.txt", File "A");
               ("b.log", File "B");
               ("sub", Dir [("c.TXT", File "C"); ("d", File "D");
                            (".bashrc", File "E")]);
               ("z.tmp", File "Z")])])]);
       ("other.log", File "O")].

Definition clean_dir : path := ["path"; "to"; "clean"].

(** The system refuses to unlink [/path/to/clean/b.log]. *)
Definition b_log_refused : path -> bool :=
  fun p =>
    match p with
    | [a; b; c; d] =>
        String.eqb a "path" && String.eqb b "to" && String.eqb c "clean"
        && String.eqb d "b.log"
    | _ => false
    end.

(** A standard output whose pipe is closed: every [print] raises. *)
Definition closed_pipe : output := fun _ _ => Some (Os_error BrokenPipeError).

(** ** After a run *)

(** The test a file of [root] passes to be found after the run: its
    extension is kept, or the system refused to unlink it. *)
Definition stays (refused : path -> bool) (keep : list string) (root : path)
    (file : string) : bool :=
  negb (doomed keep file) || refused (join root file).

(** A triple of the walk with the files that do not stay dropped. *)
Definition stay_triple (refused : path -> bool) (keep : list string)
    (t : path * list string * list string) : path * list string * list string :=
  (fst (fst t), snd (fst t), filter (stays refused keep (fst (fst t))) (snd t)).

(** ** Names and list entries *)



(** What [os.path.splitext] can return as an extension begins with a dot,
    or is empty. *)
Definition dotted_or_empty (e : string) : bool :=
  match e with
  | EmptyString => true
  | String c _ => Ascii.eqb c "."
  end.

(** ** The loop of the section "Walking Directory Trees"

<<
    for root, dirs, files in os.walk('/path/to/start'):
        print(f"Current directory: {root}")
        print(f"Subdirectories: {dirs}")
        print(f"Files: {files}")
        print("---")

        # You can modify 'dirs' in-place to control traversal
        if 'skip_this_dir' in dirs:
            dirs.remove('skip_this_dir')
>>

    The loop prints and changes nothing on disk, so the tree is a constant
    of the walk; what the body changes is the list [dirs], which [os.walk]
    reads again after the body to know where to descend. *)

Inductive tour_line : Type :=
| Current_directory (root : path)
| Subdirectories (dirs : list string)
| Files (files : list string)
| Dashes.

(** How the loop ends: normally, with the [ValueError] of [list.remove], or
    with the fuel of the model spent. *)
Inductive tour_end : Type := Tour_done | Value_error | Tour_out_of_fuel.

(** [l.remove(x)]: [l] without its first [x]; [None] stands for the
    [ValueError] raised when [x] is not in [l]. *)
Fixpoint list_remove (x : string) (l : list string) : option (list string) :=
  match l with
  | [] => None
  | y :: r =>
      if String.eqb y x then Some r else option_map (cons y) (list_remove x r)
  end.

(** The body of the loop: the lines it prints, and [dirs] as it leaves it. *)
Definition tour_body (root : path) (dirs files : list string)
    : list tour_line * option (list string) :=
  ([Current_directory root; Subdirectories dirs; Files files; Dashes],
   if contains dirs "skip_this_dir" then list_remove "skip_this_dir" dirs
   else Some dirs).

(** The descent into the directories left in [dirs], in order; the output
    is what was printed up to the end, however the loop ends. *)
Fixpoint tour_each (visit : string -> list tour_line * tour_end)
    (dirs : list string) : list tour_line * tour_end :=
  match dirs with
  | [] => ([], Tour_done)
  | d :: r =>
      match visit d with
      | (out, Tour_done) =>
          let (out', e) := tour_each visit r in (out ++ out', e)
      | stopped => stopped
      end
  end.

Fixpoint tour (fuel : nat) (g : node) (top : path)
    : list tour_line * tour_end :=
  match fuel with
  | O => ([], Tour_out_of_fuel)
  | S k =>
      match lookup g top with
      | Some (Dir es) =>
          match tour_body top (dir_names es) (file_names es) with
          | (out, None) => (out, Value_error)
          | (out, Some dirs) =>
              let (out', e) :=
                tour_each (fun dirname => tour k g (join top dirname)) dirs in
              (out ++ out', e)
          end
      | _ => ([], Tour_done)
      end
  end.

(** The loop as the tutorial writes it. *)
Definition tour_from_start (g : node) : list tour_line * tour_end :=
  tour (S (height g)) g ["path"; "to"; "start"].

Definition tour_fs : node :=
  Dir [("path", Dir [("to", Dir [("start",
          Dir [("notes.txt", File "N");
               ("skip_this_dir", Dir [("hidden", Dir []); ("h.txt", File "H")]);
               ("src", Dir [("skip_this_dir", Dir []); ("lib", Dir [])])])])])].

(** ** Invariants *)

(** A computation keeps [I]: the world it leaves satisfies [I] when the
    world it starts from does, however it ends. *)
Definition preserves {A} (I : world -> Prop) (m : M A) : Prop :=
  forall w, I w -> I (snd (m w)).

(** Every call of [os.remove] traced so far was on a path that satisfies
    [P]. *)
Definition calls_in (P : path -> Prop) (w : world) : Prop :=
  forall p e, In (p, e) (remove_calls (trace w)) -> P p.

(** The path is a file name joined to a root at or below the directory, and
    the lowercased extension of the name is not in the list. *)
Definition below (directory : path) (keep : list string) (p : path) : Prop :=
  exists root file,
    p = join root file
    /\ is_prefix directory root = true
    /\ contains keep (lower (snd (splitext file))) = false.

(** The exception is one that [print] raises. *)
Definition from_print (stdout : output) (x : exception) : Prop :=
  exists tr l, stdout tr l = Some x.

(** * Proofs *)

(** ** The library functions on the names of the example *)

Example splitext_txt : splitext "file.txt" = ("file", ".txt").
Proof. reflexivity. Qed.

Example splitext_last_dot : splitext "a.tar.gz" = ("a.tar", ".gz").
Proof. reflexivity. Qed.

Example splitext_leading_dot : splitext ".bashrc" = (".bashrc", "").
Proof. reflexivity. Qed.

Example splitext_no_dot : splitext "d" = ("d", "").
Proof. reflexivity. Qed.

Example lower_ext : ascii_lower ".TXT" = ".txt".
Proof. reflexivity. Qed.

Example sample_is_well_formed : well_formed sample_fs = true.
Proof. reflexivity. Qed.

(** ** Entries, paths and trees *)

Lemma assoc_update_entry (x : string) (f : node -> node) es :
  assoc x (update_entry x f es) = option_map f (assoc x es).
Proof.
  induction es as [|[y c] r IH]; simpl; [reflexivity|].
  destruct (String.eqb y x) eqn:E; simpl; rewrite E; auto.
Qed.

Lemma update_entry_ext (x : string) (f h : node -> node) es c :
  assoc x es = Some c -> f c = h c -> update_entry x f es = update_entry x h es.
Proof.
  induction es as [|[y d] r IH]; simpl; [discriminate|].
  destruct (String.eqb y x).
  - intros [= ->] ->. reflexivity.
  - intros H1 H2. f_equal. auto.
Qed.

Lemma update_entry_same (x : string) (f : node -> node) es c :
  assoc x es = Some c -> f c = c -> update_entry x f es = es.
Proof.
  induction es as [|[y d] r IH]; simpl; [discriminate|].
  destruct (String.eqb y x).
  - intros [= ->] ->. reflexivity.
  - intros H1 H2. f_equal. auto.
Qed.

Lemma update_entry_twice (x : string) (f h : node -> node) es :
  update_entry x f (update_entry x h es) = update_entry x (fun c => f (h c)) es.
Proof.
  induction es as [|[y d] r IH]; simpl; [reflexivity|].
  destruct (String.eqb y x) eqn:E; simpl; rewrite E; [reflexivity|].
  f_equal. exact IH.
Qed.

Lemma update_entry_missing (x : string) (f : node -> node) es :
  assoc x es = None -> update_entry x f es = es.
Proof.
  induction es as [|[y d] r IH]; simpl; [reflexivity|].
  destruct (String.eqb y x); [discriminate|].
  intros H. f_equal. auto.
Qed.

Lemma lookup_app g p q :
  lookup g (p ++ q) =
  match lookup g p with Some n => lookup n q | None => None end.
Proof.
  revert g. induction p as [|x p IH]; intros g; simpl; [reflexivity|].
  destruct g as [d|es]; [reflexivity|].
  destruct (assoc x es); [apply IH | reflexivity].
Qed.

Lemma lookup_join g root x es :
  lookup g root = Some (Dir es) -> lookup g (join root x) = assoc x es.
Proof.
  intros H. unfold join. rewrite lookup_app, H. simpl.
  destruct (assoc x es); reflexivity.
Qed.

Lemma lookup_plug g p n m :
  lookup g p = Some m -> lookup (plug g p n) p = Some n.
Proof.
  revert g. induction p as [|x p IH]; intros g; simpl; [reflexivity|].
  destruct g as [d|es]; [discriminate|].
  simpl. rewrite assoc_update_entry.
  destruct (assoc x es) as [c|]; [simpl; apply IH | discriminate].
Qed.

Lemma plug_same g p n : lookup g p = Some n -> plug g p n = g.
Proof.
  revert g. induction p as [|x p IH]; intros g; simpl.
  - intros [= ->]. reflexivity.
  - destruct g as [d|es]; [discriminate|].
    destruct (assoc x es) as [c|] eqn:E; [|discriminate].
    intros H. f_equal. apply update_entry_same with (c := c); auto.
Qed.

Lemma plug_twice g p a b : plug (plug g p a) p b = plug g p b.
Proof.
  revert g. induction p as [|x p IH]; intros g; simpl; [reflexivity|].
  destruct g as [d|es]; simpl; [reflexivity|].
  rewrite update_entry_twice. f_equal.
  destruct (assoc x es) as [c|] eqn:E.
  - apply update_entry_ext with (c := c); auto.
  - rewrite !update_entry_missing; auto.
Qed.

Lemma plug_app g p q n m :
  lookup g p = Some m -> plug g (p ++ q) n = plug g p (plug m q n).
Proof.
  revert g. induction p as [|x p IH]; intros g; simpl.
  - intros [= ->]. reflexivity.
  - destruct g as [d|es]; [discriminate|].
    destruct (assoc x es) as [c|] eqn:E; [|discriminate].
    intros H. f_equal. apply update_entry_ext with (c := c); auto.
Qed.

Lemma unlink_join g root x es :
  lookup g root = Some (Dir es) ->
  unlink g (join root x) = plug g root (Dir (remove_entry x es)).
Proof.
  unfold join. revert g. induction root as [|y q IH]; intros g; simpl.
  - intros [= ->]. reflexivity.
  - destruct g as [d|es']; [discriminate|].
    destruct (assoc y es') as [c|] eqn:E; [|discriminate].
    intros H.
    destruct (q ++ [x]) as [|z r] eqn:Eq.
    + destruct q; discriminate.
    + f_equal. apply update_entry_ext with (c := c); auto.
Qed.

Lemma plug_join g root x es c :
  lookup g root = Some (Dir es) ->
  plug g (join root x) c = plug g root (Dir (update_entry x (fun _ => c) es)).
Proof.
  intros H. unfold join. rewrite plug_app with (m := Dir es) by exact H.
  reflexivity.
Qed.

(** ** Unique names *)

Lemma contains_app l1 l2 x : contains (l1 ++ l2) x = contains l1 x || contains l2 x.
Proof. unfold contains. apply existsb_app. Qed.

Lemma contains_false_assoc x es :
  contains (map fst es) x = false -> assoc x es = None.
Proof.
  induction es as [|[y c] r IH]; simpl; [reflexivity|].
  rewrite (String.eqb_sym x y). destruct (String.eqb y x); simpl; [discriminate|].
  exact IH.
Qed.

Lemma names_unique_app l1 x l2 :
  names_unique (l1 ++ x :: l2) = true ->
  contains l1 x = false /\ contains l2 x = false.
Proof.
  induction l1 as [|y l1 IH]; simpl.
  - intros H. apply andb_true_iff in H as [H _].
    apply negb_true_iff in H. auto.
  - intros H. apply andb_true_iff in H as [H1 H2].
    apply negb_true_iff in H1. rewrite contains_app in H1.
    apply orb_false_iff in H1 as [_ H1]. simpl in H1.
    apply orb_false_iff in H1 as [H1 _].
    destruct (IH H2) as [H3 H4]. split; [|exact H4].
    rewrite String.eqb_sym, H1. exact H3.
Qed.

Lemma assoc_app_skip x (l1 l2 : list (string * node)) :
  contains (map fst l1) x = false -> assoc x (l1 ++ l2) = assoc x l2.
Proof.
  induction l1 as [|[y c] r IH]; simpl; [reflexivity|].
  rewrite (String.eqb_sym x y). destruct (String.eqb y x); simpl; [discriminate|].
  exact IH.
Qed.

Lemma remove_entry_app_skip x (l1 l2 : list (string * node)) :
  contains (map fst l1) x = false ->
  remove_entry x (l1 ++ l2) = l1 ++ remove_entry x l2.
Proof.
  induction l1 as [|[y c] r IH]; simpl; [reflexivity|].
  rewrite (String.eqb_sym x y). destruct (String.eqb y x); simpl; [discriminate|].
  intros H. f_equal. auto.
Qed.

Lemma update_entry_app_skip x f (l1 l2 : list (string * node)) :
  contains (map fst l1) x = false ->
  update_entry x f (l1 ++ l2) = l1 ++ update_entry x f l2.
Proof.
  induction l1 as [|[y c] r IH]; simpl; [reflexivity|].
  rewrite (String.eqb_sym x y). destruct (String.eqb y x); simpl; [discriminate|].
  intros H. f_equal. auto.
Qed.

Lemma contains_map_fst_filter (h : string * node -> bool) es x :
  contains (map fst es) x = false -> contains (map fst (filter h es)) x = false.
Proof.
  induction es as [|yc r IH]; simpl; [reflexivity|].
  intros H. apply orb_false_iff in H as [H1 H2].
  destruct (h yc); simpl; [rewrite H1|]; auto.
Qed.

Lemma names_unique_filter (h : string * node -> bool) es :
  names_unique (map fst es) = true ->
  names_unique (map fst (filter h es)) = true.
Proof.
  induction es as [|yc r IH]; simpl; [reflexivity|].
  intros H. apply andb_true_iff in H as [H1 H2].
  destruct (h yc); simpl; auto.
  rewrite IH by exact H2. apply negb_true_iff in H1.
  rewrite contains_map_fst_filter by exact H1. reflexivity.
Qed.

Lemma assoc_In x c es : assoc x es = Some c -> In (x, c) es.
Proof.
  induction es as [|[y d] r IH]; simpl; [discriminate|].
  destruct (String.eqb y x) eqn:E.
  - apply String.eqb_eq in E. intros [= ->]. left. congruence.
  - right. auto.
Qed.

Lemma height_child y c (es : list (string * node)) :
  In (y, c) es ->
  height c <= fold_right (fun yc h => Nat.max (height (snd yc)) h) 0 es.
Proof.
  clear lower.
  induction es as [|yc r IH]; simpl; [tauto|].
  intros [->|H]; simpl; [lia|]. specialize (IH H). lia.
Qed.

Lemma lookup_height g p n : lookup g p = Some n -> height n <= height g.
Proof.
  revert g. induction p as [|x p IH]; intros g; simpl.
  - intros [= ->]. lia.
  - destruct g as [d|es]; [discriminate|].
    destruct (assoc x es) as [c|] eqn:E; [|discriminate].
    intros H. apply IH in H.
    apply assoc_In, height_child in E. simpl. lia.
Qed.

Lemma well_formed_lookup g p n :
  well_formed g = true -> lookup g p = Some n -> well_formed n = true.
Proof.
  revert g. induction p as [|x p IH]; intros g; simpl.
  - intros H [= ->]. exact H.
  - destruct g as [d|es]; [discriminate|].
    destruct (assoc x es) as [c|] eqn:E; [|discriminate].
    simpl. intros H. apply andb_true_iff in H as [_ H].
    apply IH. rewrite forallb_forall in H.
    apply (H (x, c)). apply assoc_In. exact E.
Qed.

(** ** The run against its summary *)

Lemma bind_return {A B} (m : M A) (k : A -> M B) w a w' :
  m w = (Return a, w') -> bind m k w = k a w'.
Proof. unfold bind. intros ->. reflexivity. Qed.

Lemma for_each_cons {A} (x : A) r (body : A -> M unit) :
  for_each (x :: r) body = (body x ;; for_each r body).
Proof. reflexivity. Qed.

Section Refinement.

Variable refused : path -> bool.
Variable keep : list string.

Abbreviation kept root := (filter (survives refused keep root)).
Abbreviation cleaned root :=
  (map (fun yc => (fst yc, clean_node refused keep (join root (fst yc)) (snd yc)))).

(** One turn of the inner loop, for a name that is a file of [root]. *)
Lemma clean_file_run g tr root y d es :
  lookup g root = Some (Dir es) ->
  assoc y es = Some (File d) ->
  clean_file accepting refused keep root y (World g tr) =
  (Return tt,
   World (if survives refused keep root (y, File d) then g
          else plug g root (Dir (remove_entry y es)))
         (tr ++ file_events refused keep root y)).
Proof.
  intros Hroot Hy.
  unfold clean_file, survives, file_events, doomed. simpl.
  destruct (contains keep (lower (snd (splitext y)))); simpl.
  - unfold ret. rewrite app_nil_r. reflexivity.
  - unfold try_except, os_remove, remove_error, bind, emit, print, raise,
      accepting. simpl.
    rewrite (lookup_join _ _ y _ Hroot), Hy.
    destruct (refused (join root y)); simpl.
    + unfold emit. simpl. rewrite <- app_assoc. reflexivity.
    + rewrite (unlink_join _ _ y _ Hroot), <- app_assoc. reflexivity.
Qed.

Lemma files_loop root suf : forall pre g tr,
  names_unique (map fst (pre ++ suf)) = true ->
  lookup g root = Some (Dir (kept root pre ++ suf)) ->
  for_each (file_names suf) (clean_file accepting refused keep root)
    (World g tr) =
  (Return tt,
   World (plug g root (Dir (kept root pre ++ kept root suf)))
         (tr ++ flat_map (file_events refused keep root) (file_names suf))).
Proof.
  induction suf as [|[y c] suf IH]; intros pre g tr Hu Hg.
  - simpl. unfold ret. rewrite !app_nil_r in *.
    rewrite plug_same by exact Hg. reflexivity.
  - assert (Hy : contains (map fst (kept root pre)) y = false).
    { apply contains_map_fst_filter.
      rewrite map_app in Hu. simpl in Hu.
      apply names_unique_app in Hu. tauto. }
    assert (Hu' : names_unique (map fst ((pre ++ [(y, c)]) ++ suf)) = true).
    { rewrite <- app_assoc. exact Hu. }
    destruct c as [d|es'].
    + change (file_names ((y, File d) :: suf)) with (y :: file_names suf).
      rewrite for_each_cons.
      erewrite bind_return; cycle 1.
      { apply clean_file_run with (d := d) (es := kept root pre ++ (y, File d) :: suf).
        - exact Hg.
        - rewrite assoc_app_skip by exact Hy. simpl.
          rewrite String.eqb_refl. reflexivity. }
      rewrite remove_entry_app_skip by exact Hy. simpl remove_entry.
      rewrite String.eqb_refl.
      simpl flat_map. rewrite app_assoc.
      specialize (IH (pre ++ [(y, File d)])).
      rewrite filter_app in IH. simpl filter in IH. simpl filter.
      destruct (survives refused keep root (y, File d)).
      * rewrite <- !app_assoc in IH. simpl in IH. apply IH; assumption.
      * rewrite app_nil_r in IH. rewrite IH.
        -- rewrite plug_twice. reflexivity.
        -- exact Hu'.
        -- apply lookup_plug with (m := Dir (kept root pre ++ (y, File d) :: suf)).
           exact Hg.
    + change (file_names ((y, Dir es') :: suf)) with (file_names suf).
      specialize (IH (pre ++ [(y, Dir es')])).
      rewrite filter_app in IH. simpl filter in IH. simpl filter.
      change (survives refused keep root (y, Dir es')) with true in *.
      rewrite <- !app_assoc in IH. simpl in IH. apply IH; assumption.
Qed.

Lemma dir_names_kept root es : dir_names (kept root es) = dir_names es.
Proof.
  unfold dir_names. induction es as [|[y c] r IH]; simpl; [reflexivity|].
  destruct c as [d|es']; simpl.
  - destruct (survives refused keep root (y, File d)); simpl; exact IH.
  - change (survives refused keep root (y, Dir es')) with true. simpl.
    f_equal. exact IH.
Qed.

Lemma clean_events_kept root es :
  flat_map (fun yc => clean_events refused keep (join root (fst yc)) (snd yc))
    (kept root es) =
  flat_map (fun yc => clean_events refused keep (join root (fst yc)) (snd yc)) es.
Proof.
  induction es as [|[y c] r IH]; simpl; [reflexivity|].
  destruct (survives refused keep root (y, c)) eqn:E; simpl.
  - f_equal. exact IH.
  - destruct c; [exact IH | discriminate].
Qed.

Lemma cleaned_kept root es :
  cleaned root (kept root es) =
  flat_map
    (fun yc =>
       if survives refused keep root yc
       then [(fst yc, clean_node refused keep (join root (fst yc)) (snd yc))]
       else [])
    es.
Proof.
  induction es as [|yc r IH]; simpl; [reflexivity|].
  destruct (survives refused keep root yc); simpl; f_equal; exact IH.
Qed.

Lemma dirs_loop k root suf : walk_ok refused keep k -> forall pre g tr,
  names_unique (map fst (pre ++ suf)) = true ->
  (forall yc, In yc suf -> well_formed (snd yc) = true /\ height (snd yc) < k) ->
  lookup g root = Some (Dir (cleaned root pre ++ suf)) ->
  for_each (dir_names suf)
    (fun dirname =>
       clean_directory_fuel accepting refused k (join root dirname) keep)
    (World g tr) =
  (Return tt,
   World (plug g root (Dir (cleaned root pre ++ cleaned root suf)))
         (tr ++ flat_map
                  (fun yc => clean_events refused keep (join root (fst yc)) (snd yc))
                  suf)).
Proof.
  intros Hk.
  induction suf as [|[y c] suf IH]; intros pre g tr Hu Hsuf Hg.
  - simpl. unfold ret. rewrite !app_nil_r in *.
    rewrite plug_same by exact Hg. reflexivity.
  - assert (Hy : contains (map fst (cleaned root pre)) y = false).
    { rewrite map_map. simpl.
      rewrite map_app in Hu. simpl in Hu.
      apply names_unique_app in Hu. tauto. }
    assert (Hsuf' : forall yc, In yc suf ->
              well_formed (snd yc) = true /\ height (snd yc) < k).
    { intros yc H. apply Hsuf. right. exact H. }
    specialize (IH (pre ++ [(y, c)])).
    assert (Hpre : cleaned root (pre ++ [(y, c)]) =
                   cleaned root pre
                   ++ [(y, clean_node refused keep (join root y) c)])
      by (rewrite map_app; reflexivity).
    rewrite Hpre in IH. rewrite <- !app_assoc in IH. simpl app in IH.
    destruct c as [d|es'].
    + change (dir_names ((y, File d) :: suf)) with (dir_names suf).
      simpl. apply IH; assumption.
    + change (dir_names ((y, Dir es') :: suf)) with (y :: dir_names suf).
      destruct (Hsuf (y, Dir es') (or_introl eq_refl)) as [Hwf Hh].
      rewrite for_each_cons.
      erewrite bind_return; cycle 1.
      { apply Hk with (n := Dir es'); [exact Hwf | | exact Hh].
        rewrite (lookup_join _ _ y _ Hg).
        rewrite assoc_app_skip by exact Hy. simpl.
        rewrite String.eqb_refl. reflexivity. }
      rewrite (plug_join _ _ y _ _ Hg).
      rewrite update_entry_app_skip by exact Hy. simpl update_entry.
      rewrite String.eqb_refl.
      rewrite IH.
      * rewrite plug_twice. simpl flat_map. rewrite <- app_assoc. reflexivity.
      * exact Hu.
      * exact Hsuf'.
      * eapply lookup_plug. exact Hg.
Qed.

Lemma walk_ok_all k : walk_ok refused keep k.
Proof.
  induction k as [|k IH]; intros n top g tr Hwf Hg Hh; [lia|].
  unfold clean_directory_fuel. simpl for_walk. cbv beta. simpl fs. rewrite Hg.
  destruct n as [d|es].
  - simpl. rewrite plug_same by exact Hg. rewrite app_nil_r. reflexivity.
  - simpl in Hwf. apply andb_true_iff in Hwf as [Hu Hc].
    rewrite forallb_forall in Hc.
    unfold bind at 1. unfold emit at 1. simpl fs. simpl trace.
    erewrite bind_return; cycle 1.
    { apply (files_loop top es []); [exact Hu | exact Hg]. }
    simpl app.
    rewrite <- (dir_names_kept top es).
    change (fun dirname : string => for_walk k (join top dirname)
              (fun (root : path) (_ files : list string) =>
                 for_each files (clean_file accepting refused keep root)))
      with (fun dirname =>
              clean_directory_fuel accepting refused k (join top dirname) keep).
    rewrite (dirs_loop k top (kept top es) IH []).
    + simpl app. rewrite plug_twice, cleaned_kept, clean_events_kept.
      simpl clean_events. rewrite <- !app_assoc. reflexivity.
    + simpl app. apply names_unique_filter. exact Hu.
    + intros yc Hin. apply filter_In in Hin as [Hin _]. split.
      * apply Hc. exact Hin.
      * destruct yc as [y c]. apply height_child in Hin. simpl in *. lia.
    + simpl app. eapply lookup_plug. exact Hg.
Qed.

End Refinement.

Lemma clean_directory_run refused keep directory w n :
  well_formed n = true ->
  lookup (fs w) directory = Some n ->
  clean_directory accepting refused directory keep w =
  (Return tt,
   World (plug (fs w) directory (clean_node refused keep directory n))
         (trace w ++ clean_events refused keep directory n)).
Proof.
  intros Hwf Hl. unfold clean_directory. destruct w as [g tr]. simpl in *.
  apply walk_ok_all; [exact Hwf | exact Hl |].
  apply lookup_height in Hl. lia.
Qed.

(** Fuel beyond the height of the directory changes nothing. *)
Lemma clean_directory_fuel_enough refused keep directory w n fuel :
  well_formed n = true ->
  lookup (fs w) directory = Some n ->
  height n < fuel ->
  clean_directory_fuel accepting refused fuel directory keep w =
  clean_directory accepting refused directory keep w.
Proof.
  intros Hwf Hl Hh.
  rewrite (clean_directory_run refused keep directory w n Hwf Hl).
  destruct w as [g tr]. apply walk_ok_all; assumption.
Qed.

Lemma clean_directory_missing stdout refused keep directory w :
  lookup (fs w) directory = None ->
  clean_directory stdout refused directory keep w = (Return tt, w).
Proof.
  intros Hl. unfold clean_directory, clean_directory_fuel. simpl.
  rewrite Hl. reflexivity.
Qed.

(** ** Induction on trees *)

Lemma node_induction (P : node -> Prop) :
  (forall d, P (File d)) ->
  (forall es, (forall y c, In (y, c) es -> P c) -> P (Dir es)) ->
  forall n, P n.
Proof.
  intros HF HD.
  assert (H : forall k n, height n < k -> P n).
  { induction k as [|k IH]; intros n Hn; [lia|].
    destruct n as [d|es]; [apply HF|].
    apply HD. intros y c Hin. apply IH.
    apply height_child in Hin. simpl in Hn. lia. }
  intros n. apply (H (S (height n))). lia.
Qed.

(** ** Reading the trace *)

Lemma walked_app t1 t2 : walked (t1 ++ t2) = walked t1 ++ walked t2.
Proof.
  induction t1 as [|[| |] t1 IH]; simpl; [reflexivity| |exact IH|exact IH].
  f_equal. exact IH.
Qed.

Lemma remove_calls_app t1 t2 :
  remove_calls (t1 ++ t2) = remove_calls t1 ++ remove_calls t2.
Proof.
  induction t1 as [|[| |] t1 IH]; simpl; [reflexivity|exact IH| |exact IH].
  f_equal. exact IH.
Qed.


Section Summaries.

Variable refused : path -> bool.
Variable keep : list string.

Lemma walked_file_events root files :
  walked (flat_map (file_events refused keep root) files) = [].
Proof.
  induction files as [|f r IH]; simpl; [reflexivity|].
  rewrite walked_app, IH, app_nil_r. unfold file_events.
  destruct (doomed keep f); [|reflexivity].
  destruct (refused (join root f)); reflexivity.
Qed.

Lemma remove_calls_file_events root files :
  remove_calls (flat_map (file_events refused keep root) files) =
  map (answer refused) (map (join root) (filter (doomed keep) files)).
Proof.
  induction files as [|f r IH]; simpl; [reflexivity|].
  rewrite remove_calls_app, IH. unfold file_events, answer.
  destruct (doomed keep f); [|reflexivity].
  simpl. destruct (refused (join root f)); reflexivity.
Qed.


(** The triples the run saw are those of the tree it started from. *)
Lemma walked_clean_events n : forall top,
  walked (clean_events refused keep top n) = walk top n.
Proof.
  induction n as [d|es IH] using node_induction; intros top; [reflexivity|].
  simpl. f_equal. rewrite walked_app, walked_file_events. simpl.
  clear -IH. induction es as [|[y c] r IHr]; simpl; [reflexivity|].
  rewrite walked_app. f_equal.
  - apply (IH y c). left. reflexivity.
  - apply IHr. intros y' c' H. apply (IH y' c'). right. exact H.
Qed.

Lemma remove_calls_clean_events n : forall top,
  remove_calls (clean_events refused keep top n) =
  map (answer refused) (flat_map (doomed_paths keep) (walk top n)).
Proof.
  induction n as [d|es IH] using node_induction; intros top; [reflexivity|].
  simpl. rewrite remove_calls_app, remove_calls_file_events, map_app.
  unfold doomed_paths at 1. simpl. f_equal.
  clear -IH. induction es as [|[y c] r IHr]; simpl; [reflexivity|].
  rewrite remove_calls_app, flat_map_app, map_app. f_equal.
  - apply (IH y c). left. reflexivity.
  - apply IHr. intros y' c' H. apply (IH y' c'). right. exact H.
Qed.


End Summaries.

(** ** The tree after the run *)

Lemma lookup_plug_app g p q n m :
  lookup g p = Some m -> lookup (plug g p n) (p ++ q) = lookup n q.
Proof.
  intros H. rewrite lookup_app, (lookup_plug g p n m H). reflexivity.
Qed.




Lemma is_prefix_app p q : is_prefix p (p ++ q) = true.
Proof.
  induction p as [|x p IH]; simpl; [reflexivity|].
  rewrite String.eqb_refl. exact IH.
Qed.

Lemma is_prefix_spec p q : is_prefix p q = true -> exists r, q = p ++ r.
Proof.
  revert q. induction p as [|x p IH]; intros q; simpl.
  - exists q. reflexivity.
  - destruct q as [|y q]; [discriminate|].
    intros H. apply andb_true_iff in H as [H1 H2].
    apply String.eqb_eq in H1. subst y.
    destruct (IH q H2) as [r ->]. exists r. reflexivity.
Qed.

Lemma In_contains (y : string) (c : node) es :
  In (y, c) es -> contains (map fst es) y = true.
Proof.
  clear lower.
  induction es as [|[z d] r IH]; simpl; [tauto|].
  intros [E|H].
  - injection E as -> ->. rewrite String.eqb_refl. reflexivity.
  - rewrite (IH H). apply orb_true_r.
Qed.

Lemma In_assoc y c es :
  names_unique (map fst es) = true -> In (y, c) es -> assoc y es = Some c.
Proof.
  clear lower.
  induction es as [|[z d] r IH]; simpl; [tauto|].
  intros Hu [E|H].
  - injection E as -> ->. rewrite String.eqb_refl. reflexivity.
  - apply andb_true_iff in Hu as [Hz Hu].
    destruct (String.eqb z y) eqn:Ezy; [|auto].
    apply String.eqb_eq in Ezy. subst z.
    rewrite (In_contains y c r H) in Hz. discriminate.
Qed.

Lemma well_formed_child y c es :
  well_formed (Dir es) = true -> In (y, c) es -> well_formed c = true.
Proof.
  simpl. intros H Hin. apply andb_true_iff in H as [_ H].
  rewrite forallb_forall in H. apply (H (y, c) Hin).
Qed.

(** Every triple of the walk is the listing of a directory of the tree. *)
Lemma walk_lookup n : forall top root dirs files,
  well_formed n = true ->
  In (root, dirs, files) (walk top n) ->
  exists q es,
    root = top ++ q /\ lookup n q = Some (Dir es)
    /\ dirs = dir_names es /\ files = file_names es.
Proof.
  clear lower.
  induction n as [d|es IH] using node_induction;
    intros top root dirs files Hwf Hin; simpl in Hin; [tauto|].
  destruct Hin as [E|Hin].
  - injection E as <- <- <-. exists [], es.
    rewrite app_nil_r. simpl. auto.
  - apply in_flat_map in Hin as [[y c] [Hyc Hin]]. simpl in Hin.
    destruct (IH y c Hyc (join top y) root dirs files) as (q & es' & -> & Hq & -> & ->).
    + apply (well_formed_child y c es Hwf Hyc).
    + exact Hin.
    + exists (y :: q), es'. unfold join. rewrite <- app_assoc. simpl.
      simpl in Hwf. apply andb_true_iff in Hwf as [Hu _].
      rewrite (In_assoc y c es Hu Hyc). auto.
Qed.

Section After.

Variable refused : path -> bool.
Variable keep : list string.


(** The entry of a name after the run: a doomed file that the system lets
    go is gone, every other entry is there, cleaned below. *)
Lemma assoc_clean_entries root x es :
  names_unique (map fst es) = true ->
  assoc x
    (flat_map
       (fun yc =>
          if survives refused keep root yc
          then [(fst yc, clean_node refused keep (join root (fst yc)) (snd yc))]
          else [])
       es) =
  match assoc x es with
  | Some c =>
      if survives refused keep root (x, c)
      then Some (clean_node refused keep (join root x) c)
      else None
  | None => None
  end.
Proof.
  induction es as [|[y c] r IH]; simpl; [reflexivity|].
  intros Hu. apply andb_true_iff in Hu as [Hy Hu].
  apply negb_true_iff in Hy.
  destruct (String.eqb y x) eqn:Eyx.
  - apply String.eqb_eq in Eyx. subst y.
    destruct (survives refused keep root (x, c)); simpl.
    + rewrite String.eqb_refl. reflexivity.
    + rewrite (IH Hu), (contains_false_assoc x r Hy). reflexivity.
  - destruct (survives refused keep root (y, c)); simpl.
    + rewrite Eyx. exact (IH Hu).
    + exact (IH Hu).
Qed.

Lemma lookup_clean_node q : forall n top es,
  well_formed n = true ->
  lookup n q = Some (Dir es) ->
  lookup (clean_node refused keep top n) q =
  Some (clean_node refused keep (top ++ q) (Dir es)).
Proof.
  induction q as [|x q IH]; intros n top es Hwf; simpl.
  - intros [= ->]. rewrite app_nil_r. reflexivity.
  - destruct n as [d|es']; [discriminate|].
    destruct (assoc x es') as [c|] eqn:E; [|discriminate].
    intros Hq.
    change (clean_node refused keep top (Dir es'))
      with (Dir (flat_map
             (fun yc =>
                if survives refused keep top yc
                then [(fst yc, clean_node refused keep (join top (fst yc)) (snd yc))]
                else [])
             es')).
    cbv iota. pose proof Hwf as Hwf'. simpl in Hwf'.
    apply andb_true_iff in Hwf' as [Hu _].
    rewrite (assoc_clean_entries top x es' Hu), E.
    assert (Hs : survives refused keep top (x, c) = true).
    { destruct c as [d|]; [|reflexivity].
      destruct q; simpl in Hq; discriminate. }
    rewrite Hs.
    rewrite (IH c (join top x) es); [| |exact Hq].
    + unfold join. rewrite <- app_assoc. reflexivity.
    + apply (well_formed_child x c es' Hwf). apply assoc_In. exact E.
Qed.

Lemma file_names_assoc file es :
  names_unique (map fst es) = true ->
  In file (file_names es) -> exists d, assoc file es = Some (File d).
Proof.
  intros Hu Hin. unfold file_names in Hin.
  apply in_map_iff in Hin as [[y c] [Hy Hin]]. simpl in Hy. subst y.
  apply filter_In in Hin as [Hin Hc].
  destruct c as [d|]; [|discriminate].
  exists d. apply In_assoc; assumption.
Qed.

End After.

(** ** The run from an untraced world *)

Lemma run_summary refused directory keep g :
  well_formed g = true ->
  run refused directory keep g =
  match lookup g directory with
  | Some n =>
      (Return tt,
       World (plug g directory (clean_node refused keep directory n))
             (clean_events refused keep directory n))
  | None => (Return tt, World g [])
  end.
Proof.
  intros Hwf. unfold run, run_on.
  destruct (lookup g directory) as [n|] eqn:E.
  - rewrite (clean_directory_run refused keep directory (World g []) n).
    + reflexivity.
    + apply (well_formed_lookup g directory n Hwf E).
    + exact E.
  - apply clean_directory_missing. exact E.
Qed.

Lemma join_inj root root' file file' :
  join root file = join root' file' -> root = root' /\ file = file'.
Proof. unfold join. apply app_inj_tail. Qed.

(** A file of a triple of the walk, before and after the run. *)
Lemma reported_file refused keep directory g n root dirs files file :
  well_formed g = true ->
  lookup g directory = Some n ->
  In (root, dirs, files) (walk directory n) ->
  In file files ->
  exists d,
    lookup g (join root file) = Some (File d)
    /\ lookup (plug g directory (clean_node refused keep directory n))
         (join root file) =
       if survives refused keep root (file, File d) then Some (File d) else None.
Proof.
  intros Hwf Hn Hin Hfile.
  pose proof (well_formed_lookup g directory n Hwf Hn) as Hwfn.
  destruct (walk_lookup n directory root dirs files Hwfn Hin)
    as (q & es & -> & Hq & -> & ->).
  pose proof (well_formed_lookup n q (Dir es) Hwfn Hq) as Hwfes.
  simpl in Hwfes. apply andb_true_iff in Hwfes as [Hu _].
  destruct (file_names_assoc file es Hu Hfile) as [d Hd].
  exists d. unfold join. rewrite <- !app_assoc. split.
  - rewrite lookup_app, Hn, lookup_app, Hq. simpl. rewrite Hd. reflexivity.
  - rewrite (lookup_plug_app g directory _ _ n Hn), lookup_app.
    rewrite (lookup_clean_node refused keep q n directory es Hwfn Hq).
    change (clean_node refused keep (directory ++ q) (Dir es))
      with (Dir (flat_map
             (fun yc =>
                if survives refused keep (directory ++ q) yc
                then [(fst yc,
                       clean_node refused keep (join (directory ++ q) (fst yc))
                         (snd yc))]
                else [])
             es)).
    simpl lookup. rewrite (assoc_clean_entries refused keep _ file es Hu), Hd.
    destruct (survives refused keep (directory ++ q) (file, File d)); reflexivity.
Qed.

Lemma in_doomed_paths keep p (ts : list (path * list string * list string)) :
  In p (flat_map (doomed_paths keep) ts) <->
  exists root dirs files file,
    In (root, dirs, files) ts /\ In file files
    /\ doomed keep file = true /\ p = join root file.
Proof.
  rewrite in_flat_map. split.
  - intros [[[root dirs] files] [Ht Hp]]. unfold doomed_paths in Hp. simpl in Hp.
    apply in_map_iff in Hp as [file [<- Hf]].
    apply filter_In in Hf as [Hf Hd].
    exists root, dirs, files, file. auto.
  - intros (root & dirs & files & file & Ht & Hf & Hd & ->).
    exists (root, dirs, files). split; [exact Ht|].
    unfold doomed_paths. simpl. apply in_map. apply filter_In. auto.
Qed.

Lemma in_map_answer refused p e (ps : list path) :
  In (p, e) (map (answer refused) ps) <->
  In p ps /\ e = (if refused p then Some PermissionError else None).
Proof.
  rewrite in_map_iff. unfold answer. split.
  - intros [p' [[= -> <-] H]]. auto.
  - intros [H ->]. exists p. auto.
Qed.

Lemma map_fst_answer refused ps : map fst (map (answer refused) ps) = ps.
Proof.
  induction ps as [|p r IH]; simpl; [reflexivity|]. f_equal. exact IH.
Qed.

(** ** A standard output that accepts every line *)

Lemma contains_In l x : contains l x = true <-> In x l.
Proof.
  unfold contains. rewrite existsb_exists. split.
  - intros [y [Hy E]]. apply String.eqb_eq in E. subst y. exact Hy.
  - intros H. exists x. split; [exact H | apply String.eqb_refl].
Qed.

Lemma for_each_ext {A} (b1 b2 : A -> M unit) xs :
  (forall x w, b1 x w = b2 x w) ->
  forall w, for_each xs b1 w = for_each xs b2 w.
Proof.
  intros H. induction xs as [|x r IH]; intros w; simpl; [reflexivity|].
  unfold bind. rewrite H. destruct (b2 x w) as [[[]| |] w']; auto.
Qed.

Lemma for_walk_ext (b1 b2 : path -> list string -> list string -> M unit) :
  (forall root dirs files w, b1 root dirs files w = b2 root dirs files w) ->
  forall fuel top w, for_walk fuel top b1 w = for_walk fuel top b2 w.
Proof.
  intros H. induction fuel as [|k IH]; intros top w; simpl; [reflexivity|].
  destruct (lookup (fs w) top) as [[d|es]|]; try reflexivity.
  unfold bind at 1 3. destruct (emit _ w) as [[[]| |] w1]; try reflexivity.
  unfold bind. rewrite H.
  destruct (b2 top (dir_names es) (file_names es) w1) as [[[]| |] w2];
    try reflexivity.
  apply for_each_ext. intros x w'. apply IH.
Qed.

Lemma print_accepts stdout l w :
  accepts stdout -> print stdout l w = print accepting l w.
Proof. intros H. unfold print, accepting. rewrite H. reflexivity. Qed.

Lemma clean_file_accepts stdout refused keep root file w :
  accepts stdout ->
  clean_file stdout refused keep root file w
  = clean_file accepting refused keep root file w.
Proof.
  intros H. unfold clean_file.
  destruct (negb (contains keep (lower (snd (splitext file))))); [|reflexivity].
  unfold try_except, bind.
  destruct (os_remove refused (join root file) w) as [[[]|[e|c]|] w'];
    try reflexivity.
  - rewrite (print_accepts stdout _ w' H).
    destruct (print accepting (Removed (join root file)) w') as [[[]|[e|c]|] w''];
      try reflexivity.
    apply print_accepts. exact H.
  - apply print_accepts. exact H.
Qed.

Lemma clean_directory_accepts stdout refused directory keep w :
  accepts stdout ->
  clean_directory stdout refused directory keep w
  = clean_directory accepting refused directory keep w.
Proof.
  intros H. unfold clean_directory, clean_directory_fuel.
  apply for_walk_ext. intros root dirs files w'.
  apply for_each_ext. intros file w''.
  apply clean_file_accepts. exact H.
Qed.

Lemma run_on_accepts stdout refused directory keep g :
  accepts stdout ->
  run_on stdout refused directory keep g = run refused directory keep g.
Proof. intros H. unfold run, run_on. apply clean_directory_accepts. exact H. Qed.

(** ** What holds of a run whatever the standard output does *)

Lemma preserves_bind {A B} (I : world -> Prop) (m : M A) (k : A -> M B) :
  preserves I m -> (forall a, preserves I (k a)) -> preserves I (bind m k).
Proof.
  intros Hm Hk w Hw. unfold bind. specialize (Hm w Hw).
  destruct (m w) as [[a|x|] w']; simpl in *; auto. apply Hk. exact Hm.
Qed.

Lemma preserves_try {A} (I : world -> Prop) (b : M A) (h : OSError -> M A) :
  preserves I b -> (forall e, preserves I (h e)) ->
  preserves I (try_except b h).
Proof.
  intros Hb Hh w Hw. unfold try_except. specialize (Hb w Hw).
  destruct (b w) as [[a|[e|c]|] w']; simpl in *; auto. apply Hh. exact Hb.
Qed.

Lemma preserves_for_each {A} (I : world -> Prop) (body : A -> M unit) xs :
  (forall x, In x xs -> preserves I (body x)) ->
  preserves I (for_each xs body).
Proof.
  induction xs as [|x r IH]; intros H; simpl.
  - intros w Hw. exact Hw.
  - apply preserves_bind.
    + apply H. left. reflexivity.
    + intros _. apply IH. intros y Hy. apply H. right. exact Hy.
Qed.

Lemma in_remove_calls p e tr :
  In (p, e) (remove_calls tr) <-> In (Remove_called p e) tr.
Proof.
  induction tr as [|[r d f|q x|l] tr IH]; simpl; [tauto| | |].
  - rewrite IH. split; [auto|]. intros [H|H]; [discriminate|exact H].
  - rewrite IH. split; intros [H|H]; auto; left; congruence.
  - rewrite IH. split; [auto|]. intros [H|H]; [discriminate|exact H].
Qed.

Lemma calls_in_emit (P : path -> Prop) ev :
  match ev with Remove_called p _ => P p | _ => True end ->
  preserves (calls_in P) (emit ev).
Proof.
  intros Hev w Hw p e Hin. simpl in Hin.
  rewrite remove_calls_app in Hin. apply in_app_or in Hin as [Hin|Hin].
  - apply (Hw p e Hin).
  - destruct ev; simpl in Hin; try tauto.
    destruct Hin as [[= <- <-]|[]]. exact Hev.
Qed.

Lemma calls_in_print (P : path -> Prop) stdout l :
  preserves (calls_in P) (print stdout l).
Proof.
  intros w Hw. unfold print. destruct (stdout (trace w) l); [exact Hw|].
  apply (calls_in_emit P (Printed l) I w Hw).
Qed.

Lemma calls_in_os_remove (P : path -> Prop) refused p :
  P p -> preserves (calls_in P) (os_remove refused p).
Proof.
  intros Hp w Hw. unfold os_remove.
  pose proof (calls_in_emit P (Remove_called p (remove_error refused (fs w) p))
                Hp w Hw) as H.
  unfold bind. simpl in *.
  destruct (remove_error refused (fs w) p); exact H.
Qed.

Lemma is_prefix_join directory top x :
  is_prefix directory top = true -> is_prefix directory (join top x) = true.
Proof.
  intros H. apply is_prefix_spec in H as [r ->].
  unfold join. rewrite <- app_assoc. apply is_prefix_app.
Qed.

(** Every call of [os.remove] is on a doomed file of a root at or below the
    directory. *)
Lemma calls_in_for_walk stdout refused directory keep fuel : forall top,
  is_prefix directory top = true ->
  preserves (calls_in (below directory keep))
    (clean_directory_fuel stdout refused fuel top keep).
Proof.
  unfold clean_directory_fuel.
  induction fuel as [|k IH]; intros top Htop w Hw; simpl; [exact Hw|].
  destruct (lookup (fs w) top) as [[d|es]|]; try exact Hw.
  revert w Hw. apply preserves_bind; [apply calls_in_emit; exact I|].
  intros _. apply preserves_bind.
  - apply preserves_for_each. intros file _. unfold clean_file.
    destruct (negb (contains keep (lower (snd (splitext file))))) eqn:E;
      [|intros w Hw; exact Hw].
    apply preserves_try.
    + apply preserves_bind; [|intros _; apply calls_in_print].
      apply calls_in_os_remove. exists top, file.
      apply negb_true_iff in E. auto.
    + intros e. apply calls_in_print.
  - intros _. apply preserves_for_each. intros dirname _.
    apply IH. apply is_prefix_join. exact Htop.
Qed.

Lemma remove_calls_are_below stdout refused directory keep g p e :
  In (p, e) (remove_calls (trace (snd (run_on stdout refused directory keep g)))) ->
  below directory keep p.
Proof.
  unfold run_on, clean_directory.
  apply (calls_in_for_walk stdout refused directory keep _ directory).
  - rewrite <- (app_nil_r directory) at 2. apply is_prefix_app.
  - intros q x [].
Qed.

(** ** Where an exception that leaves the call comes from *)



Lemma print_raise stdout l w x :
  fst (print stdout l w) = Raise x -> from_print stdout x.
Proof.
  unfold print. destruct (stdout (trace w) l) as [y|] eqn:E; simpl.
  - intros [= <-]. exists (trace w), l. exact E.
  - discriminate.
Qed.

Lemma clean_file_raise stdout refused keep root file w x :
  fst (clean_file stdout refused keep root file w) = Raise x ->
  from_print stdout x.
Proof.
  unfold clean_file.
  destruct (negb (contains keep (lower (snd (splitext file)))));
    [|discriminate].
  unfold try_except, bind.
  destruct (os_remove refused (join root file) w) as [[[]|[e|c]|] w'] eqn:Er.
  - destruct (print stdout (Removed (join root file)) w')
      as [[[]|[e|c]|] w''] eqn:Ep; simpl.
    + discriminate.
    + apply print_raise.
    + intros [= <-]. apply (print_raise stdout (Removed (join root file)) w').
      rewrite Ep. reflexivity.
    + discriminate.
  - apply print_raise.
  - exfalso. unfold os_remove, bind, emit, raise in Er. simpl in Er.
    destruct (remove_error refused (fs w) (join root file)); discriminate.
  - discriminate.
Qed.


(** * The claims *)




(** C3, amended: for every call [clean_directory(directory,
    extensions_to_keep)] whose list holds lowercase, dot-prefixed extensions
    and in which no [print] raises, and every file that [os.walk] reports
    under [directory]: [os.remove] is called on the file exactly when the
    lowercased extension that [os.path.splitext] returns for its name is not
    in the list; the file is removed exactly when that call raised no
    [OSError]; otherwise, so for every file whose lowercased extension is in
    the list, it is left as it was. *)
Theorem file_removed_iff_doomed_and_allowed
    stdout refused directory keep g root dirs files file :
  Forall (fun e => is_extension e = true) keep ->
  accepts stdout ->
  well_formed g = true ->
  In (root, dirs, files)
     (walked (trace (snd (run_on stdout refused directory keep g)))) ->
  In file files ->
  ((exists e,
      In (join root file, e)
         (remove_calls (trace (snd (run_on stdout refused directory keep g)))))
   <-> contains keep (lower (snd (splitext file))) = false)
  /\ (lookup (fs (snd (run_on stdout refused directory keep g))) (join root file)
      = None
      <-> In (join root file, None)
            (remove_calls (trace (snd (run_on stdout refused directory keep g)))))
  /\ (~ In (join root file, None)
          (remove_calls (trace (snd (run_on stdout refused directory keep g)))) ->
      lookup (fs (snd (run_on stdout refused directory keep g))) (join root file)
      = lookup g (join root file)).
Proof.
  intros _ Hacc Hwf. rewrite !run_on_accepts by exact Hacc.
  rewrite run_summary by exact Hwf.
  destruct (lookup g directory) as [n|] eqn:En; simpl; [|tauto].
  rewrite walked_clean_events, remove_calls_clean_events.
  intros Ht Hf.
  destruct (reported_file refused keep directory g n root dirs files file
              Hwf En Ht Hf) as (d & Hg & Hafter).
  rewrite Hafter, Hg. clear Hafter Hg.
  assert (Hcall : In (join root file) (flat_map (doomed_paths keep) (walk directory n))
                  <-> doomed keep file = true).
  { rewrite in_doomed_paths. split.
    - intros (root' & dirs' & files' & file' & _ & _ & Hd & E).
      apply join_inj in E as [_ ->]. exact Hd.
    - intros Hd. exists root, dirs, files, file. auto. }
  unfold survives. simpl.
  assert (Hdoom : doomed keep file = true
                  <-> contains keep (lower (snd (splitext file))) = false).
  { unfold doomed. apply negb_true_iff. }
  split; [|split].
  - rewrite <- Hdoom, <- Hcall. split.
    + intros [e He]. apply in_map_answer in He. tauto.
    + intros H. eexists. apply in_map_answer. split; [exact H|reflexivity].
  - rewrite in_map_answer, Hcall.
    destruct (doomed keep file), (refused (join root file)); simpl;
      split; intros H; try discriminate; try tauto;
      destruct H; discriminate.
  - rewrite in_map_answer, Hcall.
    destruct (doomed keep file), (refused (join root file)); simpl;
      intros H; try reflexivity.
    exfalso. apply H. auto.
Qed.

(** C4, amended: the repository defines one recovery policy and propagation
    contract of its own, in the loop body of [clean_directory].  An
    [OSError] raised by [os.remove], whatever its kind, is caught there: the
    file system is left as it was and the body prints a line that names the
    path and the exception; when that [print] succeeds the body returns and
    the loop goes on.  The only exceptions that leave the body are those
    that [print] raises. *)
Theorem clean_file_propagates_only_print_errors
    stdout refused keep root file w :
  (forall x,
     fst (clean_file stdout refused keep root file w) = Raise x ->
     exists tr l, stdout tr l = Some x)
  /\ (forall e,
        contains keep (lower (snd (splitext file))) = false ->
        remove_error refused (fs w) (join root file) = Some e ->
        fs (snd (clean_file stdout refused keep root file w)) = fs w
        /\ (stdout (trace w ++ [Remove_called (join root file) (Some e)])
                   (Error_removing (join root file) e) = None ->
            clean_file stdout refused keep root file w =
            (Return tt,
             World (fs w)
               (trace w ++ [Remove_called (join root file) (Some e);
                            Printed (Error_removing (join root file) e)])))).
Proof.
  split; [intros x; apply clean_file_raise|].
  intros e Hkeep He. unfold clean_file. rewrite Hkeep. simpl.
  unfold try_except, os_remove, bind, emit, raise, print. rewrite He. simpl.
  destruct (stdout (trace w ++ [Remove_called (join root file) (Some e)])
              (Error_removing (join root file) e)) as [x|]; simpl.
  - split; [reflexivity | discriminate].
  - split; [reflexivity|]. intros _. unfold emit. simpl.
    rewrite <- app_assoc. reflexivity.
Qed.

(** C1, amended: the repository contributes one function of its own,
    [clean_directory], whose algorithm is a filter over the listing of
    [os.walk]: in a call in which no [print] raises, [os.remove] is called,
    in order, on [os.path.join(root, file)] for each triple that [os.walk]
    yields and each [file] of its files whose lowercased extension is not in
    the list, and on nothing else. *)
Theorem clean_directory_filters_the_walk stdout refused directory keep g :
  accepts stdout ->
  well_formed g = true ->
  map fst (remove_calls (trace (snd (run_on stdout refused directory keep g)))) =
  flat_map (doomed_paths keep)
    (walked (trace (snd (run_on stdout refused directory keep g)))).
Proof.
  intros Hacc Hwf. rewrite !run_on_accepts by exact Hacc.
  rewrite run_summary by exact Hwf.
  destruct (lookup g directory) as [n|]; simpl; [|auto].
  rewrite walked_clean_events, remove_calls_clean_events, map_fst_answer.
  reflexivity.
Qed.

(** C2, amended: the repository is a document, but its last example is
    executable logic with an entry point, the call
    [clean_directory('/path/to/clean', extensions)] with
    [extensions = ['.txt', '.pdf', '.jpg']], and its behaviour has
    properties one can assert: every path it passes to [os.remove] is a file
    name joined to a root that is [/path/to/clean] or extends it, with a
    lowercased extension that is none of [.txt], [.pdf], [.jpg], whether or
    not a [print] raises; and where [/path/to/clean] is not found it returns
    with nothing removed and nothing printed. *)
Theorem usage_removes_below_path_to_clean stdout refused g :
  (forall p e,
     In (p, e) (remove_calls (trace (snd (usage stdout refused (World g []))))) ->
     exists root file,
       p = join root file
       /\ is_prefix ["path"; "to"; "clean"] root = true
       /\ contains [".txt"; ".pdf"; ".jpg"] (lower (snd (splitext file)))
          = false)
  /\ (lookup g ["path"; "to"; "clean"] = None ->
      usage stdout refused (World g []) = (Return tt, World g [])).
Proof.
  split.
  - intros p e Hin.
    apply (remove_calls_are_below stdout refused ["path"; "to"; "clean"]
             extensions g p e Hin).
  - intros Hnone.
    apply (clean_directory_missing stdout refused extensions
             ["path"; "to"; "clean"] (World g []) Hnone).
Qed.

(** C6, amended: besides the markdown structure of the document, the
    repository exposes one callable of its own, [clean_directory(directory,
    extensions_to_keep)], which acts through its argument [directory]:
    every path that a call passes to [os.remove] is [directory] extended by
    one component or more, whether or not a [print] raises. *)
Theorem clean_directory_acts_below_directory
    stdout refused directory keep g p e :
  In (p, e) (remove_calls (trace (snd (run_on stdout refused directory keep g)))) ->
  is_prefix directory p = true /\ p <> directory.
Proof.
  intros Hin.
  destruct (remove_calls_are_below stdout refused directory keep g p e Hin)
    as (root & file & -> & Hroot & _).
  apply is_prefix_spec in Hroot as [q ->]. unfold join.
  rewrite <- app_assoc. split; [apply is_prefix_app|].
  intros E. rewrite <- (app_nil_r directory) in E at 2.
  apply app_inv_head in E. destruct q; discriminate.
Qed.

(** * Further properties of [clean_directory] *)

(** ** Well-formed trees stay well formed *)





(** ** The walk of the tree after the run *)

Lemma is_dir_clean_node refused keep top n :
  is_dir (clean_node refused keep top n) = is_dir n.
Proof. destruct n; reflexivity. Qed.

Lemma walk_clean_node refused keep n : forall top,
  walk top (clean_node refused keep top n) =
  map (stay_triple refused keep) (walk top n).
Proof.
  induction n as [d|es IH] using node_induction; intros top; [reflexivity|].
  simpl. unfold stay_triple at 1. simpl. f_equal.
  - f_equal; [f_equal|].
    + unfold dir_names. clear IH.
      induction es as [|[y c] r IHr]; simpl; [reflexivity|].
      destruct (survives refused keep top (y, c)) eqn:E; simpl.
      * rewrite is_dir_clean_node. destruct (is_dir c); simpl; [f_equal|]; exact IHr.
      * destruct c; [exact IHr | discriminate].
    + unfold file_names. clear IH.
      induction es as [|[y c] r IHr]; simpl; [reflexivity|].
      destruct c as [d|es']; simpl.
      * unfold survives, stays. simpl.
        destruct (negb (doomed keep y) || refused (join top y)); simpl;
          [f_equal|]; exact IHr.
      * exact IHr.
  - induction es as [|[y c] r IHr]; simpl; [reflexivity|].
    assert (Hr : forall y' c', In (y', c') r ->
              forall top, walk top (clean_node refused keep top c')
                          = map (stay_triple refused keep) (walk top c')).
    { intros y' c' H. apply (IH y' c'). right. exact H. }
    rewrite map_app, <- (IHr Hr).
    destruct (survives refused keep top (y, c)) eqn:E; simpl.
    + f_equal. apply (IH y c). left. reflexivity.
    + destruct c; [reflexivity | discriminate].
Qed.

(** Every directory of a tree is listed by the walk. *)
Lemma lookup_walk n : forall top q es,
  lookup n q = Some (Dir es) ->
  In (top ++ q, dir_names es, file_names es) (walk top n).
Proof.
  intros top q. revert n top.
  induction q as [|x q IH]; intros n top es; simpl.
  - intros [= ->]. rewrite app_nil_r. simpl. left. reflexivity.
  - destruct n as [d|es']; [discriminate|].
    destruct (assoc x es') as [c|] eqn:E; [|discriminate].
    intros H. simpl. right. apply in_flat_map.
    exists (x, c). split; [apply assoc_In; exact E|].
    simpl. specialize (IH c (join top x) es H).
    unfold join in *. rewrite <- app_assoc in IH. exact IH.
Qed.

(** The files found in a directory after the run all stay. *)
Lemma files_after_clean refused keep n top q es file :
  lookup (clean_node refused keep top n) q = Some (Dir es) ->
  In file (file_names es) ->
  stays refused keep (top ++ q) file = true.
Proof.
  intros Hl Hf.
  pose proof (lookup_walk _ top q es Hl) as Hin.
  rewrite walk_clean_node in Hin.
  apply in_map_iff in Hin as [[[root dirs] files] [E _]].
  unfold stay_triple in E. simpl in E. injection E as -> _ E.
  rewrite <- E in Hf. apply filter_In in Hf as [_ Hf]. exact Hf.
Qed.







(** The files of a directory that the walk listed, after the run. *)
Lemma files_after_run refused directory keep g root dirs files es file :
  well_formed g = true ->
  In (root, dirs, files) (walked (trace (snd (run refused directory keep g)))) ->
  lookup (fs (snd (run refused directory keep g))) root = Some (Dir es) ->
  In file (file_names es) ->
  stays refused keep root file = true.
Proof.
  intros Hwf. rewrite run_summary by exact Hwf.
  destruct (lookup g directory) as [n|] eqn:En; simpl; [|tauto].
  rewrite walked_clean_events. intros Ht.
  pose proof (well_formed_lookup g directory n Hwf En) as Hwfn.
  destruct (walk_lookup n directory root dirs files Hwfn Ht)
    as (q & es0 & -> & _).
  rewrite (lookup_plug_app g directory q _ n En).
  apply files_after_clean.
Qed.

(** X4: after a call of [clean_directory] in which no [print] raises, every
    file found in a directory that [os.walk] listed has a lowercased
    extension that is in the list, or is a file the system refused to
    unlink. *)
Theorem only_kept_files_remain
    refused directory keep g root dirs files es file :
  well_formed g = true ->
  In (root, dirs, files) (walked (trace (snd (run refused directory keep g)))) ->
  lookup (fs (snd (run refused directory keep g))) root = Some (Dir es) ->
  In file (file_names es) ->
  contains keep (lower (snd (splitext file))) = true
  \/ refused (join root file) = true.
Proof.
  intros Hwf Ht Hl Hf.
  pose proof (files_after_run refused directory keep g root dirs files es file
                Hwf Ht Hl Hf) as H.
  unfold stays, doomed in H. rewrite negb_involutive in H.
  apply orb_true_iff in H. exact H.
Qed.

(** X5: with an empty list of extensions, a system that refuses nothing and
    no [print] that raises, [clean_directory] removes every file it finds:
    afterwards no directory that [os.walk] listed holds a file. *)
Theorem empty_list_removes_every_file directory g root dirs files es :
  well_formed g = true ->
  In (root, dirs, files) (walked (trace (snd (run never directory [] g)))) ->
  lookup (fs (snd (run never directory [] g))) root = Some (Dir es) ->
  file_names es = [].
Proof.
  intros Hwf Ht Hl.
  destruct (file_names es) as [|file r] eqn:E; [reflexivity|].
  assert (Hf : In file (file_names es)) by (rewrite E; left; reflexivity).
  pose proof (files_after_run never directory [] g root dirs files es file
                Hwf Ht Hl Hf) as H.
  discriminate H.
Qed.



(** ** Extensions *)

Lemma rfind_from_spec c p : forall i,
  (0 <= i)%Z ->
  rfind_from c p i = (-1)%Z
  \/ ((i <= rfind_from c p i)%Z
      /\ String.get (Z.to_nat (rfind_from c p i - i)) p = Some c).
Proof.
  induction p as [|a r IH]; intros i Hi; simpl; [left; reflexivity|].
  destruct (0 <=? rfind_from c r (i + 1))%Z eqn:E.
  - right. destruct (IH (i + 1)%Z ltac:(lia)) as [H|[H1 H2]].
    + rewrite H in E. discriminate.
    + split; [lia|].
      replace (Z.to_nat (rfind_from c r (i + 1) - i))
        with (S (Z.to_nat (rfind_from c r (i + 1) - (i + 1)))) by lia.
      exact H2.
  - destruct (Ascii.eqb a c) eqn:Eac; [|left; reflexivity].
    right. split; [lia|]. rewrite Z.sub_diag. simpl.
    apply Ascii.eqb_eq in Eac. subst a. reflexivity.
Qed.

Lemma rfind_lower_bound c p : (-1 <= rfind c p)%Z.
Proof.
  unfold rfind. destruct (rfind_from_spec c p 0%Z ltac:(lia)) as [H|[H _]]; lia.
Qed.

Lemma substring_from_get n : forall p c,
  String.get n p = Some c ->
  exists r, substring n (String.length p - n) p = String c r.
Proof.
  induction n as [|n IH]; intros p c; destruct p as [|a s]; simpl;
    try discriminate.
  - intros [= ->]. eexists. reflexivity.
  - intros H. apply IH. exact H.
Qed.

Lemma splitext_extension p : dotted_or_empty (snd (splitext p)) = true.
Proof.
  unfold splitext.
  destruct ((rfind "/" p <? rfind "." p)%Z
            && has_name_before_dot p (Z.to_nat (rfind "/" p + 1))
                 (Z.to_nat (rfind "." p - (rfind "/" p + 1)))) eqn:E;
    [|reflexivity].
  apply andb_true_iff in E as [E _]. apply Z.ltb_lt in E.
  pose proof (rfind_lower_bound "/" p) as Hsep.
  unfold rfind in *.
  destruct (rfind_from_spec "." p 0%Z ltac:(lia)) as [H|[H1 H2]]; [lia|].
  rewrite Z.sub_0_r in H2.
  destruct (substring_from_get _ p "."%char H2) as [r Hr].
  simpl. rewrite Hr. reflexivity.
Qed.



(** X7: an element of [extensions_to_keep] that is not empty and does not
    begin with a dot (['txt'] written for ['.txt']) has no effect: the call
    does what it does without that element, because [os.path.splitext] only
    returns extensions that begin with a dot or are empty, and [str.lower]
    leaves them so. *)
Theorem undotted_entry_has_no_effect stdout refused directory e keep w :
  (forall s, dotted_or_empty s = true -> dotted_or_empty (lower s) = true) ->
  dotted_or_empty e = false ->
  clean_directory stdout refused directory (e :: keep) w
  = clean_directory stdout refused directory keep w.
Proof.
  intros Hlower He. unfold clean_directory, clean_directory_fuel.
  apply for_walk_ext. intros root dirs files w'.
  apply for_each_ext. intros file w''.
  unfold clean_file.
  change (contains (e :: keep) (lower (snd (splitext file))))
    with (String.eqb (lower (snd (splitext file))) e
          || contains keep (lower (snd (splitext file)))).
  destruct (String.eqb (lower (snd (splitext file))) e) eqn:E; [|reflexivity].
  apply String.eqb_eq in E.
  rewrite <- E, (Hlower _ (splitext_extension file)) in He. discriminate.
Qed.


(** * The loop of "Walking Directory Trees" *)

Lemma list_remove_present x l :
  contains l x = true -> exists l', list_remove x l = Some l'.
Proof.
  induction l as [|y r IH]; simpl; [discriminate|].
  rewrite (String.eqb_sym x y). destruct (String.eqb y x); simpl.
  - intros _. eexists. reflexivity.
  - intros H. destruct (IH H) as [l' ->]. eexists. reflexivity.
Qed.

Lemma list_remove_incl x l l' d :
  list_remove x l = Some l' -> In d l' -> In d l.
Proof.
  revert l'. induction l as [|y r IH]; intros l'; simpl; [discriminate|].
  destruct (String.eqb y x).
  - intros [= ->] H. right. exact H.
  - destruct (list_remove x r) as [l''|]; [|discriminate].
    intros [= <-] [H|H]; [left; exact H | right; apply (IH l''); auto].
Qed.

Lemma list_remove_others x l l' d :
  list_remove x l = Some l' -> In d l -> d <> x -> In d l'.
Proof.
  revert l'. induction l as [|y r IH]; intros l'; simpl; [discriminate|].
  destruct (String.eqb y x) eqn:E.
  - apply String.eqb_eq in E. subst y.
    intros [= ->] [H|H] Hd; [congruence | exact H].
  - destruct (list_remove x r) as [l''|]; [|discriminate].
    intros [= <-] [H|H] Hd; [left; exact H | right; apply (IH l''); auto].
Qed.

Lemma list_remove_unique x l l' :
  names_unique l = true -> list_remove x l = Some l' -> contains l' x = false.
Proof.
  revert l'. induction l as [|y r IH]; intros l'; simpl; [discriminate|].
  intros Hu. apply andb_true_iff in Hu as [Hy Hu].
  apply negb_true_iff in Hy.
  destruct (String.eqb y x) eqn:E.
  - apply String.eqb_eq in E. subst y. intros [= ->]. exact Hy.
  - destruct (list_remove x r) as [l''|] eqn:El; [|discriminate].
    intros [= <-]. simpl. rewrite (String.eqb_sym x y), E. simpl.
    apply (IH l'' Hu eq_refl).
Qed.

(** The directories the walk descends into, after the body. *)
Lemma tour_body_dirs root dirs files :
  exists ds,
    snd (tour_body root dirs files) = Some ds
    /\ (forall d, In d ds -> In d dirs)
    /\ (forall d, In d dirs -> d <> "skip_this_dir" -> In d ds)
    /\ (names_unique dirs = true -> contains ds "skip_this_dir" = false).
Proof.
  unfold tour_body. simpl.
  destruct (contains dirs "skip_this_dir") eqn:E.
  - destruct (list_remove_present _ _ E) as [ds Hds]. exists ds.
    split; [exact Hds|]. split; [|split].
    + intros d. apply (list_remove_incl _ _ _ d Hds).
    + intros d. apply (list_remove_others _ _ _ d Hds).
    + intros Hu. apply (list_remove_unique _ _ _ Hu Hds).
  - exists dirs. auto.
Qed.

Lemma tour_step k g top :
  tour (S k) g top =
  match lookup g top with
  | Some (Dir es) =>
      match tour_body top (dir_names es) (file_names es) with
      | (out, None) => (out, Value_error)
      | (out, Some dirs) =>
          let (out', e) :=
            tour_each (fun dirname => tour k g (join top dirname)) dirs in
          (out ++ out', e)
      end
  | _ => ([], Tour_done)
  end.
Proof. reflexivity. Qed.

Lemma tour_each_end visit dirs :
  (forall d, snd (visit d) <> Value_error) ->
  snd (tour_each visit dirs) <> Value_error.
Proof.
  intros H. induction dirs as [|d r IH]; simpl; [discriminate|].
  specialize (H d). destruct (visit d) as [out e]. simpl in H.
  destruct e; simpl; try assumption; try discriminate.
  destruct (tour_each visit r) as [out' e']. exact IH.
Qed.

Lemma tour_end_not_value_error g k : forall top,
  snd (tour k g top) <> Value_error.
Proof.
  induction k as [|k IH]; intros top; [discriminate|].
  rewrite tour_step.
  destruct (lookup g top) as [[d|es]|]; try discriminate.
  destruct (tour_body_dirs top (dir_names es) (file_names es))
    as (ds & Hds & _).
  destruct (tour_body top (dir_names es) (file_names es)) as [out o].
  simpl in Hds. subst o.
  pose proof (tour_each_end (fun dirname => tour k g (join top dirname)) ds
                (fun d => IH (join top d))) as He.
  destruct (tour_each (fun dirname => tour k g (join top dirname)) ds)
    as [out' e].
  exact He.
Qed.

(** X9: in the loop of "Walking Directory Trees",
    [dirs.remove('skip_this_dir')] never raises [ValueError], on any file
    system and from any starting path, because the membership test guards
    it. *)
Theorem tour_never_raises_value_error g k top :
  snd (tour k g top) = Tour_done \/ snd (tour k g top) = Tour_out_of_fuel.
Proof.
  pose proof (tour_end_not_value_error g k top) as H.
  destruct (snd (tour k g top)); auto. contradiction.
Qed.

Lemma tour_each_in visit dirs x :
  In x (fst (tour_each visit dirs)) ->
  exists d, In d dirs /\ In x (fst (visit d)).
Proof.
  induction dirs as [|d r IH]; simpl; [tauto|].
  destruct (visit d) as [out e] eqn:Ev.
  assert (Hd : In x out -> exists d0, (d = d0 \/ In d0 r) /\ In x (fst (visit d0))).
  { intros H. exists d. rewrite Ev. auto. }
  destruct e; simpl; try exact Hd.
  destruct (tour_each visit r) as [out' e']. simpl in *.
  intros H. apply in_app_or in H as [H|H]; [auto|].
  destruct (IH H) as [d0 [H1 H2]]. exists d0. auto.
Qed.

(** X10: the loop of "Walking Directory Trees" never enters a directory
    named [skip_this_dir] below its starting path: every path it prints as
    the current directory is a directory of the tree reached from the start
    through names other than [skip_this_dir]. *)
Theorem tour_skips_the_named_directory g k top root :
  well_formed g = true ->
  In (Current_directory root) (fst (tour k g top)) ->
  exists q es,
    root = top ++ q
    /\ contains q "skip_this_dir" = false
    /\ lookup g root = Some (Dir es).
Proof.
  clear lower.
  intros Hwf. revert top. induction k as [|k IH]; intros top; [simpl; tauto|].
  rewrite tour_step.
  destruct (lookup g top) as [[d|es]|] eqn:El; try (simpl; tauto).
  destruct (tour_body_dirs top (dir_names es) (file_names es))
    as (ds & Hds & _ & _ & Hskip).
  assert (Hout : fst (tour_body top (dir_names es) (file_names es)) =
                 [Current_directory top; Subdirectories (dir_names es);
                  Files (file_names es); Dashes]) by reflexivity.
  destruct (tour_body top (dir_names es) (file_names es)) as [out o].
  simpl in Hds, Hout. subst o out.
  pose proof (tour_each_in (fun dirname => tour k g (join top dirname)) ds
                (Current_directory root)) as Heach.
  destruct (tour_each (fun dirname => tour k g (join top dirname)) ds)
    as [out' e].
  simpl fst in *. intros H. simpl in H.
  destruct H as [H|[H|[H|[H|H]]]]; try discriminate.
  - injection H as <-. exists [], es. rewrite app_nil_r. auto.
  - destruct (Heach H) as [d [Hd Hin]].
    destruct (IH (join top d) Hin) as (q & es' & -> & Hq & Hl).
    exists (d :: q), es'. unfold join in *. rewrite <- app_assoc in *.
    split; [reflexivity|]. split; [|exact Hl].
    pose proof (well_formed_lookup g top (Dir es) Hwf El) as Hes.
    simpl in Hes. apply andb_true_iff in Hes as [Hu _].
    specialize (Hskip (names_unique_filter _ es Hu)).
    change (contains (d :: q) "skip_this_dir")
      with (String.eqb "skip_this_dir" d || contains q "skip_this_dir").
    rewrite Hq, orb_false_r.
    destruct (String.eqb "skip_this_dir" d) eqn:E; [|reflexivity].
    apply String.eqb_eq in E. subst d.
    apply contains_In in Hd. rewrite Hd in Hskip. discriminate.
Qed.

(** ** No file is removed twice *)








(** X14: [clean_directory] uses [extensions_to_keep] as a set: two lists
    with the same elements, in whatever order and number, give the same
    call. *)
Theorem keep_list_is_used_as_a_set stdout refused directory k1 k2 w :
  (forall e, In e k1 <-> In e k2) ->
  clean_directory stdout refused directory k1 w
  = clean_directory stdout refused directory k2 w.
Proof.
  intros H. unfold clean_directory, clean_directory_fuel.
  apply for_walk_ext. intros root dirs files w'.
  apply for_each_ext. intros file w''.
  unfold clean_file.
  assert (E : contains k1 (lower (snd (splitext file)))
              = contains k2 (lower (snd (splitext file)))).
  { specialize (H (lower (snd (splitext file)))).
    rewrite <- !contains_In in H.
    destruct (contains k1 (lower (snd (splitext file)))),
             (contains k2 (lower (snd (splitext file))));
      try reflexivity; destruct H as [H1 H2];
      [symmetry; apply H1 | apply H2]; reflexivity. }
  rewrite E. reflexivity.
Qed.

End Library.

(** * The sample runs

    The counterexamples and the instances below run the code on
    [sample_fs], whose names are ASCII, with [ascii_lower] for [str.lower]. *)

Lemma ascii_lower_dotted s :
  dotted_or_empty s = true -> dotted_or_empty (ascii_lower s) = true.
Proof.
  destruct s as [|c r]; [reflexivity|]. simpl.
  destruct c as [[] [] [] [] [] [] [] []]; try discriminate; reflexivity.
Qed.

Lemma accepting_accepts : accepts accepting.
Proof. intros tr l. reflexivity. Qed.

(** ** C1 *)

(** C1, as stated, fails: [clean_directory] is a function of the repository
    with logic of its own.  On the sample file system the library call
    [os.remove] raises for [b.log]; [clean_directory] handles the failure
    (the call returns, the error line is printed), goes on, and removes the
    files it selects by extension, leaving [a.txt] and [c.TXT]. *)
Lemma clean_directory_has_logic_of_its_own :
  fst (os_remove b_log_refused (join clean_dir "b.log") (World sample_fs []))
  = Raise (Os_error PermissionError)
  /\ fst (run ascii_lower b_log_refused clean_dir extensions sample_fs)
     = Return tt
  /\ printed
       (trace (snd (run ascii_lower b_log_refused clean_dir extensions sample_fs))) =
     [Error_removing ["path"; "to"; "clean"; "b.log"] PermissionError;
      Removed ["path"; "to"; "clean"; "z.tmp"];
      Removed ["path"; "to"; "clean"; "sub"; "d"];
      Removed ["path"; "to"; "clean"; "sub"; ".bashrc"]]
  /\ walked
       (trace (snd (run ascii_lower b_log_refused clean_dir extensions sample_fs))) =
     [(["path"; "to"; "clean"], ["sub"], ["a.txt"; "b.log"; "z.tmp"]);
      (["path"; "to"; "clean"; "sub"], [], ["c.TXT"; "d"; ".bashrc"])].
Proof. repeat split. Qed.

Lemma clean_directory_filters_the_walk_witness :
  accepts accepting
  /\ well_formed sample_fs = true
  /\ map fst
       (remove_calls
          (trace (snd (run_on ascii_lower accepting b_log_refused clean_dir
                         extensions sample_fs)))) =
     flat_map (doomed_paths ascii_lower extensions)
       (walked
          (trace (snd (run_on ascii_lower accepting b_log_refused clean_dir
                         extensions sample_fs)))).
Proof.
  split; [exact accepting_accepts|]. split; [reflexivity|].
  exact (clean_directory_filters_the_walk ascii_lower accepting b_log_refused
           clean_dir extensions sample_fs accepting_accepts eq_refl).
Defined.

(** ** C2 *)

(** C2, as stated, fails: the usage lines of the example are executable, and
    running them has an effect.  On the sample file system they return
    normally, delete four files and print four lines. *)
Lemma usage_is_executable :
  fst (usage ascii_lower accepting never (World sample_fs [])) = Return tt
  /\ fs (snd (usage ascii_lower accepting never (World sample_fs []))) =
     Dir [("path", Dir [("to", Dir [("clean",
             Dir [("a.txt", File "A");
                  ("sub", Dir [("c.TXT", File "C")])])])]);
          ("other.log", File "O")]
  /\ printed (trace (snd (usage ascii_lower accepting never (World sample_fs [])))) =
     [Removed ["path"; "to"; "clean"; "b.log"];
      Removed ["path"; "to"; "clean"; "z.tmp"];
      Removed ["path"; "to"; "clean"; "sub"; "d"];
      Removed ["path"; "to"; "clean"; "sub"; ".bashrc"]].
Proof. repeat split. Qed.

(** ** C3 *)

(** C3, as stated, fails where [os.remove] raises: [/path/to/clean/b.log] is
    reported by the walk, its extension [.log] is not in the list (whose
    elements are lowercase and dot-prefixed), and the file is still there
    after the call, because the system refused to unlink it. *)
Lemma refused_file_is_not_removed :
  Forall (fun e => is_extension ascii_lower e = true) extensions
  /\ well_formed sample_fs = true
  /\ In (clean_dir, ["sub"], ["a.txt"; "b.log"; "z.tmp"])
       (walked
          (trace (snd (run ascii_lower b_log_refused clean_dir extensions
                         sample_fs))))
  /\ In "b.log" ["a.txt"; "b.log"; "z.tmp"]
  /\ contains extensions (ascii_lower (snd (splitext "b.log"))) = false
  /\ lookup (fs (snd (run ascii_lower b_log_refused clean_dir extensions
                        sample_fs)))
       (join clean_dir "b.log") = Some (File "B").
Proof.
  repeat split.
  - repeat constructor.
  - vm_compute. left. reflexivity.
  - right. left. reflexivity.
Qed.

Lemma file_removed_iff_doomed_and_allowed_witness :
  Forall (fun e => is_extension ascii_lower e = true) extensions
  /\ accepts accepting
  /\ well_formed sample_fs = true
  /\ In (clean_dir, ["sub"], ["a.txt"; "b.log"; "z.tmp"])
       (walked
          (trace (snd (run_on ascii_lower accepting b_log_refused clean_dir
                         extensions sample_fs))))
  /\ In "z.tmp" ["a.txt"; "b.log"; "z.tmp"]
  /\ (((exists e,
          In (join clean_dir "z.tmp", e)
             (remove_calls
                (trace (snd (run_on ascii_lower accepting b_log_refused
                               clean_dir extensions sample_fs)))))
       <-> contains extensions (ascii_lower (snd (splitext "z.tmp"))) = false)
      /\ (lookup
            (fs (snd (run_on ascii_lower accepting b_log_refused clean_dir
                        extensions sample_fs)))
            (join clean_dir "z.tmp") = None
          <-> In (join clean_dir "z.tmp", None)
                (remove_calls
                   (trace (snd (run_on ascii_lower accepting b_log_refused
                                  clean_dir extensions sample_fs)))))
      /\ (~ In (join clean_dir "z.tmp", None)
              (remove_calls
                 (trace (snd (run_on ascii_lower accepting b_log_refused
                                clean_dir extensions sample_fs)))) ->
          lookup
            (fs (snd (run_on ascii_lower accepting b_log_refused clean_dir
                        extensions sample_fs)))
            (join clean_dir "z.tmp")
          = lookup sample_fs (join clean_dir "z.tmp"))).
Proof.
  assert (H1 : Forall (fun e => is_extension ascii_lower e = true) extensions)
    by (repeat constructor).
  assert (H3 : In (clean_dir, ["sub"], ["a.txt"; "b.log"; "z.tmp"])
       (walked
          (trace (snd (run_on ascii_lower accepting b_log_refused clean_dir
                         extensions sample_fs)))))
    by (vm_compute; left; reflexivity).
  assert (H4 : In "z.tmp" ["a.txt"; "b.log"; "z.tmp"])
    by (clear; simpl; auto).
  split; [exact H1|]. split; [exact accepting_accepts|].
  split; [reflexivity|]. split; [exact H3|]. split; [exact H4|].
  exact (file_removed_iff_doomed_and_allowed ascii_lower accepting
           b_log_refused clean_dir extensions sample_fs clean_dir ["sub"]
           ["a.txt"; "b.log"; "z.tmp"] "z.tmp" H1 accepting_accepts eq_refl
           H3 H4).
Defined.

(** ** C4 *)

(** C4, as stated, fails: the function has a recovery policy of its own.
    Where the library call [os.remove] raises [PermissionError], the loop
    body of [clean_directory] returns normally, having printed the error
    line. *)
Lemma remove_error_is_recovered :
  fst (os_remove b_log_refused (join clean_dir "b.log") (World sample_fs []))
  = Raise (Os_error PermissionError)
  /\ clean_file ascii_lower accepting b_log_refused extensions clean_dir "b.log"
       (World sample_fs [])
     = (Return tt,
        World sample_fs
          [Remove_called (join clean_dir "b.log") (Some PermissionError);
           Printed (Error_removing (join clean_dir "b.log") PermissionError)]).
Proof. split; reflexivity. Qed.

(** ** C5 *)



(** ** C6 *)

(** C6, as stated, fails: the example defines a callable with two
    parameters, and what a call does depends on both.  On the sample file
    system, [b.log] is removed under the example's list and kept under
    [['.log']], which removes [a.txt] instead; called on the subdirectory
    [sub], the function leaves [b.log] and removes [sub/d]. *)
Lemma clean_directory_is_callable :
  lookup (fs (snd (run ascii_lower never clean_dir extensions sample_fs)))
    ["path"; "to"; "clean"; "b.log"] = None
  /\ lookup (fs (snd (run ascii_lower never clean_dir [".log"] sample_fs)))
       ["path"; "to"; "clean"; "b.log"] = Some (File "B")
  /\ lookup (fs (snd (run ascii_lower never clean_dir [".log"] sample_fs)))
       ["path"; "to"; "clean"; "a.txt"] = None
  /\ lookup
       (fs (snd (run ascii_lower never (clean_dir ++ ["sub"]) extensions
                   sample_fs)))
       ["path"; "to"; "clean"; "b.log"] = Some (File "B")
  /\ lookup
       (fs (snd (run ascii_lower never (clean_dir ++ ["sub"]) extensions
                   sample_fs)))
       ["path"; "to"; "clean"; "sub"; "d"] = None.
Proof. repeat split. Qed.

Lemma clean_directory_acts_below_directory_witness :
  In (join clean_dir "b.log", Some PermissionError)
     (remove_calls
        (trace (snd (run_on ascii_lower closed_pipe b_log_refused clean_dir
                       extensions sample_fs))))
  /\ is_prefix clean_dir (join clean_dir "b.log") = true
  /\ join clean_dir "b.log" <> clean_dir.
Proof.
  assert (H : In (join clean_dir "b.log", Some PermissionError)
     (remove_calls
        (trace (snd (run_on ascii_lower closed_pipe b_log_refused clean_dir
                       extensions sample_fs)))))
    by (vm_compute; left; reflexivity).
  split; [exact H|].
  exact (clean_directory_acts_below_directory ascii_lower closed_pipe
           b_log_refused clean_dir extensions sample_fs
           (join clean_dir "b.log") (Some PermissionError) H).
Defined.

(** ** C7 *)


(** ** Further properties *)



Lemma only_kept_files_remain_witness :
  well_formed sample_fs = true
  /\ In (clean_dir ++ ["sub"], [], ["c.TXT"; "d"; ".bashrc"])
       (walked
          (trace (snd (run ascii_lower b_log_refused clean_dir extensions
                         sample_fs))))
  /\ lookup
       (fs (snd (run ascii_lower b_log_refused clean_dir extensions sample_fs)))
       (clean_dir ++ ["sub"]) = Some (Dir [("c.TXT", File "C")])
  /\ In "c.TXT" (file_names [("c.TXT", File "C")])
  /\ (contains extensions (ascii_lower (snd (splitext "c.TXT"))) = true
      \/ b_log_refused (join (clean_dir ++ ["sub"]) "c.TXT") = true).
Proof.
  assert (H1 : In (clean_dir ++ ["sub"], [], ["c.TXT"; "d"; ".bashrc"])
       (walked
          (trace (snd (run ascii_lower b_log_refused clean_dir extensions
                         sample_fs)))))
    by (vm_compute; right; left; reflexivity).
  assert (H2 : In "c.TXT" (file_names [("c.TXT", File "C")]))
    by (vm_compute; left; reflexivity).
  split; [reflexivity|]. split; [exact H1|]. split; [reflexivity|].
  split; [exact H2|].
  exact (only_kept_files_remain ascii_lower b_log_refused clean_dir extensions
           sample_fs (clean_dir ++ ["sub"]) [] ["c.TXT"; "d"; ".bashrc"]
           [("c.TXT", File "C")] "c.TXT" eq_refl H1 eq_refl H2).
Defined.

Lemma empty_list_removes_every_file_witness :
  well_formed sample_fs = true
  /\ In (clean_dir, ["sub"], ["a.txt"; "b.log"; "z.tmp"])
       (walked (trace (snd (run ascii_lower never clean_dir [] sample_fs))))
  /\ lookup (fs (snd (run ascii_lower never clean_dir [] sample_fs))) clean_dir
     = Some (Dir [("sub", Dir [])])
  /\ file_names [("sub", Dir [])] = [].
Proof.
  assert (H1 : In (clean_dir, ["sub"], ["a.txt"; "b.log"; "z.tmp"])
       (walked (trace (snd (run ascii_lower never clean_dir [] sample_fs)))))
    by (vm_compute; left; reflexivity).
  split; [reflexivity|]. split; [exact H1|]. split; [vm_compute; reflexivity|].
  exact (empty_list_removes_every_file ascii_lower clean_dir sample_fs
           clean_dir ["sub"] ["a.txt"; "b.log"; "z.tmp"] [("sub", Dir [])]
           eq_refl H1 eq_refl).
Defined.


Lemma undotted_entry_has_no_effect_witness :
  (forall s, dotted_or_empty s = true ->
             dotted_or_empty (ascii_lower s) = true)
  /\ dotted_or_empty "txt" = false
  /\ clean_directory ascii_lower accepting b_log_refused clean_dir
       ("txt" :: [".pdf"]) (World sample_fs [])
     = clean_directory ascii_lower accepting b_log_refused clean_dir [".pdf"]
         (World sample_fs []).
Proof.
  split; [exact ascii_lower_dotted|]. split; [reflexivity|].
  exact (undotted_entry_has_no_effect ascii_lower accepting b_log_refused
           clean_dir "txt" [".pdf"] (World sample_fs []) ascii_lower_dotted
           eq_refl).
Defined.


Lemma tour_skips_the_named_directory_witness :
  well_formed tour_fs = true
  /\ In (Current_directory ["path"; "to"; "start"; "src"; "lib"])
       (fst (tour 6 tour_fs ["path"; "to"; "start"]))
  /\ exists q es,
       ["path"; "to"; "start"; "src"; "lib"] = ["path"; "to"; "start"] ++ q
       /\ contains q "skip_this_dir" = false
       /\ lookup tour_fs ["path"; "to"; "start"; "src"; "lib"] = Some (Dir es).
Proof.
  assert (H : In (Current_directory ["path"; "to"; "start"; "src"; "lib"])
       (fst (tour 6 tour_fs ["path"; "to"; "start"])))
    by (vm_compute; auto 10).
  split; [reflexivity|]. split; [exact H|].
  exact (tour_skips_the_named_directory tour_fs 6 ["path"; "to"; "start"]
           ["path"; "to"; "start"; "src"; "lib"] eq_refl H).
Defined.



Lemma keep_list_is_used_as_a_set_witness :
  (forall e, In e [".txt"; ".pdf"] <-> In e [".pdf"; ".txt"; ".pdf"])
  /\ clean_directory ascii_lower accepting b_log_refused clean_dir
       [".txt"; ".pdf"] (World sample_fs [])
     = clean_directory ascii_lower accepting b_log_refused clean_dir
         [".pdf"; ".txt"; ".pdf"] (World sample_fs []).
Proof.
  assert (H : forall e, In e [".txt"; ".pdf"] <-> In e [".pdf"; ".txt"; ".pdf"])
    by (intros e; simpl; tauto).
  split; [exact H|].
  exact (keep_list_is_used_as_a_set ascii_lower accepting b_log_refused
           clean_dir [".txt"; ".pdf"] [".pdf"; ".txt"; ".pdf"]
           (World sample_fs []) H).
Defined.
